(** * Reporter: the multi-server MCP client manager, the server registry
    and the agent loop

    A shallow embedding of [src/mcp/client.ts] (class [MCPClientManager]),
    [src/mcp/registry.ts] ([getEnabledServers]) and, from the written
    design only, of the agent loop that drives them.

    Conventions.
    - JavaScript strings are modelled by [string]; only searching for and
      cutting at ASCII patterns is used, so the difference between UTF-16
      code units and bytes does not show.
    - [async] functions are modelled sequentially: every [await] is a
      synchronous call whose answer is given by the environment.
    - Exceptions and mutable state are made explicit by the monad [M]. *)

From Stdlib Require Import ZArith Ascii.
From stdpp Require Import base option list strings gmap.

Set Warnings "-register-all".
Open Scope Z_scope.

(** ** String primitives *)

Module Str.

(** [s.startsWith(pat)] *)
Fixpoint startsWith (pat s : string) : bool :=
  match pat, s with
  | EmptyString, _ => true
  | String _ _, EmptyString => false
  | String a p, String b t => bool_decide (a = b) && startsWith p t
  end.

(** Position of the first occurrence of [pat] in [s], if any. *)
Fixpoint search (pat s : string) : option nat :=
  if startsWith pat s then Some O
  else match s with
       | EmptyString => None
       | String _ t => S <$> search pat t
       end.

(** [s.indexOf(pat)]: the first position, or [-1]. *)
Definition indexOf (pat s : string) : Z :=
  match search pat s with
  | Some i => Z.of_nat i
  | None => -1
  end.

(** [s.includes(pat)] *)
Definition includes (pat s : string) : bool :=
  bool_decide (indexOf pat s ≠ -1).

Fixpoint take (n : nat) (s : string) : string :=
  match n, s with
  | S n', String a t => String a (take n' t)
  | _, _ => EmptyString
  end.

Fixpoint drop (n : nat) (s : string) : string :=
  match n, s with
  | S n', String _ t => drop n' t
  | _, _ => s
  end.

(** Index normalisation of [String.prototype.slice]: a negative index
    counts from the end, and the result is clamped to [0 .. len]. *)
Definition clamp (len i : Z) : Z :=
  if i <? 0 then Z.max (len + i) 0 else Z.min i len.

(** [s.slice(from, to)]; [to = None] is the one-argument form. *)
Definition slice (s : string) (from : Z) (to : option Z) : string :=
  let len := Z.of_nat (String.length s) in
  let a := clamp len from in
  let b := clamp len (default len to) in
  take (Z.to_nat (b - a)) (drop (Z.to_nat a) s).

(** [s.endsWith(c)] for a one-character [c]. *)
Fixpoint endsWithChar (c : ascii) (s : string) : bool :=
  match s with
  | EmptyString => false
  | String a EmptyString => bool_decide (a = c)
  | String _ t => endsWithChar c t
  end.

(** [parts.join(sep)] *)
Fixpoint join (sep : string) (parts : list string) : string :=
  match parts with
  | [] => ""
  | [p] => p
  | p :: rest => p +:+ sep +:+ join sep rest
  end.

End Str.

(** ** Values

    Tool arguments, tool results and schemas are JSON data.  A number is
    kept as its canonical decimal rendering (what [String(n)] gives), which
    is all the manager ever does with one. *)

Inductive value : Type :=
| VNull
| VBool (b : bool)
| VNum (repr : string)
| VStr (s : string)
| VArr (items : list value)
| VObj (fields : list (string * value)).

(** A plain object [Record<string, unknown>]; an absent key reads as
    [undefined]. *)
Abbreviation obj := (gmap string value).

(** JavaScript truthiness, on an optional value ([None] is [undefined]). *)
Definition truthy (v : option value) : bool :=
  match v with
  | None | Some VNull => false
  | Some (VBool b) => b
  | Some (VNum r) => bool_decide (r ≠ "0")
  | Some (VStr s) => bool_decide (s ≠ "")
  | Some (VArr _) | Some (VObj _) => true
  end.

(** [String(v)], as used by a template literal. *)
Fixpoint toString (v : value) : string :=
  match v with
  | VNull => "null"
  | VBool true => "true"
  | VBool false => "false"
  | VNum r => r
  | VStr s => s
  | VArr items =>
      Str.join ","
        (map (λ x, match x with VNull => "" | _ => toString x end) items)
  | VObj _ => "[object Object]"
  end.

(** ** Data model of [client.ts] and [registry.ts] *)

(** A value read from [process.env], and so a value of an entry's [env]:
    a string of the environment or, under a name that is not set, what
    [process.env] inherits from [Object.prototype] under that name (a
    function, or for [__proto__] the prototype itself). *)
Inductive envValue : Type :=
| EnvString (s : string)
| EnvInherited (name : string).

Global Instance envValue_eq_dec : EqDecision envValue.
Proof. solve_decision. Defined.

(** [ServerEntry] (registry.ts). *)
Record ServerEntry := {
  entry_name : string;
  entry_command : string;
  entry_args : list string;
  entry_env : gmap string envValue;
}.

(** One element of [result.tools] as answered by [client.listTools()]. *)
Record RawTool := {
  raw_name : string;
  raw_description : option string;
  raw_inputSchema : value;
}.

(** [MCPTool] *)
Record MCPTool := {
  tool_name : string;
  tool_description : option string;
  tool_input_schema : value;
}.

(** A transport (and the client bound to it) is identified by the order
    in which it was created. *)
Definition handle := nat.

(** [ConnectedServer] *)
Record ConnectedServer := {
  server_name : string;
  server_client : handle;
  server_transport : handle;
  server_tools : list MCPTool;
}.

(** Options given to [new StdioClientTransport]. *)
Record TransportParams := {
  tp_command : string;
  tp_args : list string;
  tp_env : gmap string envValue;
}.

(** ** Exceptions *)

Inductive exn : Type :=
| InvalidToolName (name : string)
| UnknownServer (serverName : string)
| TokenNotSet (integration tokenEnv : string)
| TypeError (what : string)
| External (message : string).

(** [e.message] *)
Definition message (e : exn) : string :=
  match e with
  | InvalidToolName name => "Invalid tool name: " +:+ name
  | UnknownServer serverName => "No server connected for: " +:+ serverName
  | TokenNotSet integration tokenEnv =>
      integration +:+ " enabled but " +:+ tokenEnv +:+ " not set in environment"
  | TypeError what => what
  | External m => m
  end.

(** ** Observable events

    Everything the manager does to the outside: lines written by
    [utils/log.ts] and requests made through the SDK. *)

Inductive logmsg : Type :=
| MsgConnecting (name : string)
| MsgToolsAvailable (name : string) (count : nat)
| MsgToolNames (name : string) (names : list string)
| MsgConnectFailed (name : string) (reason : string)
| MsgCalling (serverName toolName : string) (args : obj).

Inductive event : Type :=
| EvLog (m : logmsg)
| EvError (m : logmsg)
| EvDebug (m : logmsg)
| EvStart (h : handle) (params : TransportParams)
| EvListTools (h : handle)
| EvCallTool (h : handle) (toolName : string) (ref : nat) (args : obj)
| EvClose (h : handle).

(** The environment: the process environment, and for every request the
    answer of the outside world, which may depend on everything that
    happened before (the trace ends with the request being answered). *)
Record World := {
  processEnv : gmap string string;
  startOutcome : list event → option exn;
  listToolsOutcome : list event → exn + list RawTool;
  callToolOutcome : list event → exn + value;
  closeOutcome : list event → option exn;
}.

(** ** Program state *)

Definition loc := nat.

Record State := {
  servers : list ConnectedServer;   (* this.servers *)
  githubOrgs : list string;         (* this.githubOrgs *)
  heap : list obj;                  (* argument objects, by reference *)
  created : nat;                    (* transports created so far *)
  trace : list event;               (* what happened, oldest first *)
}.

Definition set_servers (f : list ConnectedServer → list ConnectedServer)
    (st : State) : State :=
  {| servers := f (servers st); githubOrgs := githubOrgs st;
     heap := heap st; created := created st; trace := trace st |}.

Definition set_heap (f : list obj → list obj) (st : State) : State :=
  {| servers := servers st; githubOrgs := githubOrgs st;
     heap := f (heap st); created := created st; trace := trace st |}.

Definition set_created (f : nat → nat) (st : State) : State :=
  {| servers := servers st; githubOrgs := githubOrgs st;
     heap := heap st; created := f (created st); trace := trace st |}.

Definition set_trace (f : list event → list event) (st : State) : State :=
  {| servers := servers st; githubOrgs := githubOrgs st;
     heap := heap st; created := created st; trace := f (trace st) |}.

(** [new MCPClientManager(githubOrgs)] *)
Definition newManager (orgs : list string) (objects : list obj) : State :=
  {| servers := []; githubOrgs := orgs; heap := objects;
     created := O; trace := [] |}.

(** ** The state-and-exception monad *)

Definition M (A : Type) : Type := State → (exn + A) * State.

Global Instance M_ret : MRet M := λ A x st, (inr x, st).

Global Instance M_bind : MBind M := λ A B f m st,
  match m st with
  | (inr x, st') => f x st'
  | (inl e, st') => (inl e, st')
  end.

Definition throw {A} (e : exn) : M A := λ st, (inl e, st).

(** [try { body } catch (e) { handler(e) }]: effects of [body] up to the
    throw are kept. *)
Definition try_catch {A} (body : M A) (handler : exn → M A) : M A := λ st,
  match body st with
  | (inl e, st') => handler e st'
  | r => r
  end.

Definition get : M State := λ st, (inr st, st).

Definition modify (f : State → State) : M unit := λ st, (inr tt, f st).

Definition emit (e : event) : M unit := modify (set_trace (λ t, t ++ [e])).

(** [for (const x of xs) body(x)] *)
Fixpoint for_each {A} (xs : list A) (body : A → M unit) : M unit :=
  match xs with
  | [] => mret tt
  | x :: rest => body x;; for_each rest body
  end.

(** Lift an answer of the outside world. *)
Definition of_outcome {A} (r : exn + A) : M A := λ st, (r, st).

Definition of_failure (r : option exn) : M unit :=
  match r with
  | Some e => throw e
  | None => mret tt
  end.

(** ** [MCPClientManager] *)

(** The qualified name given to a discovered tool:
    [`${entry.name}__${t.name}`]. *)
Definition qualifiedName (serverName rawName : string) : string :=
  serverName +:+ "__" +:+ rawName.

(** The body of [result.tools.map(...)] in [connect]. *)
Definition toMCPTool (entry : ServerEntry) (t : RawTool) : MCPTool :=
  {| tool_name := qualifiedName (entry_name entry) (raw_name t);
     tool_description :=
       Some ("[" +:+ entry_name entry +:+ "] "
             +:+ default (raw_name t) (raw_description t));
     tool_input_schema := raw_inputSchema t |}.

(** The first four statements of [callTool]: where the name is cut.
    [None] is the case [sep === -1]. *)
Definition parseName (name : string) : option (string * string) :=
  let sep := Str.indexOf "__" name in
  if bool_decide (sep = -1) then None
  else Some (Str.slice name 0 (Some sep), Str.slice name (sep + 2) None).

(** [this.githubOrgs.map((o) => `org:${o}`).join(" ")] *)
Definition orgFilter (orgs : list string) : string :=
  Str.join " " (map (λ o, "org:" +:+ o) orgs).

(** [q.includes("org:")] for whatever [q] is at run time: a string is
    searched, an array is asked for an element equal to the pattern, and
    nothing else has an [includes] method. *)
Definition qIncludes (pat : string) (q : value) : exn + bool :=
  match q with
  | VStr s => inr (Str.includes pat s)
  | VArr items =>
      inr (existsb
             (λ x, match x with VStr s => bool_decide (s = pat) | _ => false end)
             items)
  | _ => inl (TypeError "q.includes is not a function")
  end.

(** The content of the object at [l]; a reference to nothing on the heap
    reads as the empty object. *)
Definition readObj (h : list obj) (l : loc) : obj := default ∅ (h !! l).

(** The options [connect] gives to [new StdioClientTransport]; in
    [{ ...process.env, ...entry.env }] the entry's variables win, and of
    [process.env] the spread copies the variables that are set, not what
    is inherited. *)
Definition transportParams (W : World) (entry : ServerEntry) : TransportParams :=
  {| tp_command := entry_command entry;
     tp_args := entry_args entry;
     tp_env := entry_env entry ∪ (EnvString <$> processEnv W) |}.

Section Manager.

Variable W : World.

(** *** utils/log.ts *)
Definition log (m : logmsg) : M unit := emit (EvLog m).
Definition error (m : logmsg) : M unit := emit (EvError m).
Definition debug (m : logmsg) : M unit := emit (EvDebug m).

(** *** The SDK *)

(** [new StdioClientTransport(...)] and [new Client(...)] *)
Definition newTransport : M handle :=
  st ← get; modify (set_created S);; mret (created st).

(** [await client.connect(transport)] *)
Definition clientConnect (h : handle) (params : TransportParams) : M unit :=
  emit (EvStart h params);;
  st ← get; of_failure (startOutcome W (trace st)).

(** [await client.listTools()] *)
Definition clientListTools (h : handle) : M (list RawTool) :=
  emit (EvListTools h);;
  st ← get; of_outcome (listToolsOutcome W (trace st)).

(** [await client.callTool({ name, arguments })]; the request carries
    the object [ref] whose content at that moment is [args]. *)
Definition clientCallTool (h : handle) (toolName : string) (ref : loc)
    : M value :=
  st ← get;
  emit (EvCallTool h toolName ref (readObj (heap st) ref));;
  st ← get; of_outcome (callToolOutcome W (trace st)).

(** [await transport.close()] *)
Definition transportClose (h : handle) : M unit :=
  emit (EvClose h);;
  st ← get; of_failure (closeOutcome W (trace st)).

(** An object literal: a new object on the heap. *)
Definition alloc (o : obj) : M loc :=
  st ← get; modify (set_heap (λ h, h ++ [o]));; mret (length (heap st)).

(** *** connect *)

(** One turn of the loop of [connect]. *)
Definition connectEntry (entry : ServerEntry) : M unit :=
  try_catch
    (log (MsgConnecting (entry_name entry));;
     transport ← newTransport;
     let client := transport in
     clientConnect client (transportParams W entry);;
     result ← clientListTools client;
     let tools := map (toMCPTool entry) result in
     modify (set_servers (λ s, s ++ [
       {| server_name := entry_name entry;
          server_client := client;
          server_transport := transport;
          server_tools := tools |} ]));;
     log (MsgToolsAvailable (entry_name entry) (length tools));;
     debug (MsgToolNames (entry_name entry) (map tool_name tools)))
    (λ e, error (MsgConnectFailed (entry_name entry) (message e))).

Definition connect (entries : list ServerEntry) : M unit :=
  for_each entries connectEntry.

(** *** getAllTools *)

Definition getAllTools : M (list MCPTool) :=
  st ← get; mret (flat_map server_tools (servers st)).

(** *** callTool *)

(** The block guarded by the GitHub test: the value of the local
    variable [args] when the block is left. *)
Definition injectOrgs (args : loc) : M loc :=
  st ← get;
  let q := readObj (heap st) args !! "q" in
  match q with
  | Some v =>
      if truthy q then
        found ← of_outcome (qIncludes "org:" v);
        if negb found then
          alloc (<["q" := VStr (orgFilter (githubOrgs st) +:+ " " +:+ toString v)]>
                   (readObj (heap st) args))
        else mret args
      else mret args
  | None => mret args
  end.

Definition callTool (name : string) (args : loc) : M value :=
  match parseName name with
  | None => throw (InvalidToolName name)
  | Some (serverName, toolName) =>
      st ← get;
      match List.find (λ s, bool_decide (server_name s = serverName))
              (servers st) with
      | None => throw (UnknownServer serverName)
      | Some server =>
          args ← (if bool_decide (serverName = "github")
                     && bool_decide (toolName = "search_issues")
                     && bool_decide (0 < length (githubOrgs st))%nat
                  then injectOrgs args
                  else mret args);
          st ← get;
          debug (MsgCalling serverName toolName (readObj (heap st) args));;
          clientCallTool (server_client server) toolName args
      end
  end.

(** *** disconnect *)

Definition disconnect : M unit :=
  st ← get;
  for_each (servers st)
    (λ server,
      try_catch (transportClose (server_transport server)) (λ _, mret tt));;
  modify (set_servers (λ _, [])).

End Manager.

(** ** [getEnabledServers] (registry.ts) *)

(** [Config] is declared in config.ts, which is not among the sources;
    these are the fields that registry.ts and the command line read, with
    the types their uses give them. *)
Record GithubConfig := {
  github_enabled : bool;
  github_token_env : string;
  github_orgs : list string;
}.

Record JiraConfig := {
  jira_enabled : bool;
  jira_url : string;
}.

Record SlackConfig := {
  slack_enabled : bool;
  slack_token_env : string;
}.

Record Config := {
  github : GithubConfig;
  jira : JiraConfig;
  slack : SlackConfig;
}.

(** The property names of [Object.prototype], which every read of
    [process.env] falls back to. *)
Definition objectPrototypeNames : list string :=
  ["constructor"; "__defineGetter__"; "__defineSetter__"; "hasOwnProperty";
   "__lookupGetter__"; "__lookupSetter__"; "isPrototypeOf";
   "propertyIsEnumerable"; "toString"; "valueOf"; "__proto__";
   "toLocaleString"].

(** [process.env[name]]: the variable when it is set, else what is
    inherited under that name; [None] is [undefined]. *)
Definition envLookup (env : gmap string string) (name : string)
    : option envValue :=
  match env !! name with
  | Some s => Some (EnvString s)
  | None =>
      if bool_decide (name ∈ objectPrototypeNames)
      then Some (EnvInherited name) else None
  end.

(** [process.env[name]] followed by the test [if (!token) throw ...]:
    the value read when it is truthy.  [undefined] and the empty string
    are falsy; a string that is not empty and an inherited function or
    object are truthy. *)
Definition readToken (env : gmap string string) (name : string)
    : option envValue :=
  match envLookup env name with
  | Some (EnvString s) =>
      if bool_decide (s = "") then None else Some (EnvString s)
  | Some (EnvInherited inherited) => Some (EnvInherited inherited)
  | None => None
  end.

Definition githubEntry (token : envValue) : ServerEntry :=
  {| entry_name := "github";
     entry_command := "npx";
     entry_args := ["-y"; "@modelcontextprotocol/server-github"];
     entry_env := {["GITHUB_PERSONAL_ACCESS_TOKEN" := token]} |}.

Definition jiraEntry (url : string) : ServerEntry :=
  {| entry_name := "jira";
     entry_command := "npx";
     entry_args := ["-y"; "mcp-remote"; url];
     entry_env := ∅ |}.

Definition slackEntry (token : envValue) : ServerEntry :=
  {| entry_name := "slack";
     entry_command := "npx";
     entry_args := ["-y"; "@modelcontextprotocol/server-slack"];
     entry_env := {["SLACK_BOT_TOKEN" := token]} |}.

(** Each of the three blocks of [getEnabledServers] either throws or
    leaves the array [servers] extended by at most one entry. *)
Definition addGithub (env : gmap string string) (config : Config)
    (servers : list ServerEntry) : exn + list ServerEntry :=
  if github_enabled (github config) then
    match readToken env (github_token_env (github config)) with
    | None => inl (TokenNotSet "GitHub" (github_token_env (github config)))
    | Some token => inr (servers ++ [githubEntry token])
    end
  else inr servers.

Definition addJira (config : Config) (servers : list ServerEntry)
    : exn + list ServerEntry :=
  if jira_enabled (jira config) then
    inr (servers ++ [jiraEntry (jira_url (jira config))])
  else inr servers.

Definition addSlack (env : gmap string string) (config : Config)
    (servers : list ServerEntry) : exn + list ServerEntry :=
  if slack_enabled (slack config) then
    match readToken env (slack_token_env (slack config)) with
    | None => inl (TokenNotSet "Slack" (slack_token_env (slack config)))
    | Some token => inr (servers ++ [slackEntry token])
    end
  else inr servers.

Definition getEnabledServers (env : gmap string string) (config : Config)
    : exn + list ServerEntry :=
  match addGithub env config [] with
  | inl e => inl e
  | inr servers =>
      match addJira config servers with
      | inl e => inl e
      | inr servers => addSlack env config servers
      end
  end.

(** ** The answers of the outside world to [connect] *)

(** What the world answers when [entry] is attempted in state [st]: the
    failure of the start or of the discovery, or the discovered tools. *)
Definition attemptOutcome (W : World) (st : State) (entry : ServerEntry)
    : exn + list RawTool :=
  let h := created st in
  let tr := trace st ++ [EvLog (MsgConnecting (entry_name entry));
                         EvStart h (transportParams W entry)] in
  match startOutcome W tr with
  | Some e => inl e
  | None => listToolsOutcome W (tr ++ [EvListTools h])
  end.

(** The attempts made by [connect entries] from [st], in order: the
    descriptor, the handle of its transport and the world's answer. *)
Fixpoint attempts (W : World) (st : State) (entries : list ServerEntry)
    : list (ServerEntry * handle * (exn + list RawTool)) :=
  match entries with
  | [] => []
  | entry :: rest =>
      (entry, created st, attemptOutcome W st entry)
      :: attempts W (snd (connectEntry W entry st)) rest
  end.

(** The [ConnectedServer] pushed for a successful attempt. *)
Definition connectedServer (entry : ServerEntry) (h : handle)
    (result : list RawTool) : ConnectedServer :=
  {| server_name := entry_name entry;
     server_client := h;
     server_transport := h;
     server_tools := map (toMCPTool entry) result |}.

Definition established
    (a : ServerEntry * handle * (exn + list RawTool)) : option ConnectedServer :=
  match a with
  | (entry, h, inr result) => Some (connectedServer entry h result)
  | (_, _, inl _) => None
  end.

(** Projections of a trace. *)
Definition startOf (e : event) : option (handle * TransportParams) :=
  match e with EvStart h p => Some (h, p) | _ => None end.

Definition remoteCallOf (e : event) : option (handle * string * obj) :=
  match e with EvCallTool h t _ a => Some (h, t, a) | _ => None end.

(** ** The agent loop *)

(** Modelled from the spec: a tool call requested by the model
    ([ToolInvocationRequest]); the loop and the provider interface
    ([llm/agent.ts]) are not among the sources, only the call
    [runAgent(provider, mcpClient, systemPrompt, userMessage)] is. *)
Record ToolInvocationRequest := {
  req_qualifiedName : string;
  req_arguments : obj;
}.

(** Modelled from the spec: [payload | failureReason]. *)
Inductive ToolOutcome : Type :=
| Payload (v : value)
| FailureReason (reason : string).

(** Modelled from the spec: [ToolInvocationResult]. *)
Record ToolInvocationResult := {
  res_qualifiedName : string;
  res_outcome : ToolOutcome;
}.

(** Modelled from the spec: a [Message] of the conversation, by role. *)
Inductive Message : Type :=
| UserMessage (content : string)
| AssistantMessage (content : option string)
    (requests : list ToolInvocationRequest)
| ToolResultMessage (result : ToolInvocationResult).

(** Modelled from the spec: the provider's answer, a tagged union.  A
    tool-use turn carries the text of the assistant turn, if any. *)
Inductive Response : Type :=
| FinalText (text : string)
| ToolUseTurn (text : option string) (requests : list ToolInvocationRequest).

(** Modelled from the spec: the four states of the loop. *)
Inductive Phase : Type :=
| AWAITING_MODEL
| EXECUTING_TOOLS (requests : list ToolInvocationRequest)
| DONE (text : string)
| ABORTED_LIMIT (text : string).

(** Modelled from the spec: the termination reason. *)
Inductive TerminationReason : Type := completed | iterationLimit.

(** Modelled from the spec: what the loop owns, the conversation and the
    iteration counter; [invocations] counts the provider calls made. *)
Record Loop := {
  phase : Phase;
  conversation : list Message;
  iterationCounter : nat;
  invocations : nat;
}.

(** Modelled from the spec: the default bound. *)
Definition defaultMaxIterations : nat := 20.

(** Modelled from the spec: the write-scope policy.  The issue tracker is
    the [jira] entry of the registry; an operation is read-type when its
    name carries one of the four verbs. *)
Definition issueTracker : string := "jira".

(** Modelled from the spec: the read-type verbs (search/read/list/get). *)
Definition readVerbs : list string := ["search"; "read"; "list"; "get"].

(** Modelled from the spec: read-type operations. *)
Definition readTypeOperation (rawName : string) : bool :=
  existsb (λ verb, Str.includes verb rawName) readVerbs.

(** Modelled from the spec: the static allow-list, keyed by integration;
    only the issue tracker is scoped. *)
Definition permitted (name : string) : bool :=
  match parseName name with
  | Some (serverName, rawName) =>
      if bool_decide (serverName = issueTracker)
      then readTypeOperation rawName
      else true
  | None => true
  end.

(** Modelled from the spec: the last assistant text of a conversation. *)
Definition lastAssistantText (conv : list Message) : option string :=
  last (omap (λ m, match m with
                   | AssistantMessage (Some text) _ => Some text
                   | _ => None
                   end) conv).

(** Modelled from the spec: the result read off a terminal state. *)
Definition outcome (l : Loop) : option (string * TerminationReason) :=
  match phase l with
  | DONE text => Some (text, completed)
  | ABORTED_LIMIT text => Some (text, iterationLimit)
  | _ => None
  end.

Section Agent.

Variable W : World.

(** Modelled from the spec: the language-model provider, a stateless
    function of the system prompt, the conversation and the tools. *)
Variable provider : string → list Message → list MCPTool → exn + Response.

Variable systemPrompt : string.

(** Modelled from the spec: the fixed fallback string. *)
Variable fallback : string.

(** Modelled from the spec: one requested call, under the write-scope
    policy and through [callTool]; a failure becomes the content of the
    result. *)
Definition executeCall (req : ToolInvocationRequest)
    : M ToolInvocationResult :=
  if permitted (req_qualifiedName req) then
    try_catch
      (ref ← alloc (req_arguments req);
       v ← callTool W (req_qualifiedName req) ref;
       mret {| res_qualifiedName := req_qualifiedName req;
               res_outcome := Payload v |})
      (λ e, mret {| res_qualifiedName := req_qualifiedName req;
                    res_outcome := FailureReason (message e) |})
  else
    mret {| res_qualifiedName := req_qualifiedName req;
            res_outcome := FailureReason "ToolNotPermitted" |}.

(** Modelled from the spec: every requested call, in emission order. *)
Fixpoint executeCalls (reqs : list ToolInvocationRequest)
    : M (list ToolInvocationResult) :=
  match reqs with
  | [] => mret []
  | req :: rest =>
      r ← executeCall req; rs ← executeCalls rest; mret (r :: rs)
  end.

(** Modelled from the spec: the bound check.  The iteration counter is
    bounded by [N] and an iteration ends by incrementing it, so an
    iteration may begin only when incrementing would not exceed [N];
    when it would, the loop goes to ABORTED_LIMIT instead, returning the
    last observed assistant text or the fallback. *)
Definition boundCheck (N : nat) (conv : list Message) (counter : nat)
    : Phase :=
  if bool_decide (N < S counter)%nat
  then ABORTED_LIMIT (default fallback (lastAssistantText conv))
  else AWAITING_MODEL.

(** Modelled from the spec: one transition of the state machine with
    bound [N]. *)
Definition step (N : nat) (l : Loop) : M Loop :=
  match phase l with
  | AWAITING_MODEL =>
      tools ← getAllTools;
      r ← of_outcome
            (provider systemPrompt (conversation l)
               (filter (λ t, permitted (tool_name t)) tools));
      match r with
      | FinalText text =>
          mret {| phase := DONE text;
                  conversation := conversation l;
                  iterationCounter := iterationCounter l;
                  invocations := S (invocations l) |}
      | ToolUseTurn text requests =>
          mret {| phase := EXECUTING_TOOLS requests;
                  conversation :=
                    conversation l ++ [AssistantMessage text requests];
                  iterationCounter := iterationCounter l;
                  invocations := S (invocations l) |}
      end
  | EXECUTING_TOOLS requests =>
      results ← executeCalls requests;
      let conv := conversation l ++ map ToolResultMessage results in
      let counter := S (iterationCounter l) in
      mret {| phase := boundCheck N conv counter;
              conversation := conv;
              iterationCounter := counter;
              invocations := invocations l |}
  | DONE _ | ABORTED_LIMIT _ => mret l
  end.

(** Modelled from the spec: [fuel] transitions in a row. *)
Fixpoint steps (N fuel : nat) (l : Loop) : M Loop :=
  match fuel with
  | O => mret l
  | S fuel' => l' ← step N l; steps N fuel' l'
  end.

(** Modelled from the spec: the initial state of a run.  The counter is
    reset and the loop waits for the model, which is where the bound
    check of a reset counter leads for the default bound and for every
    bound but 0; a bound of 0 allows no iteration. *)
Definition initial (N : nat) (userMessage : string) : Loop :=
  {| phase := boundCheck N [UserMessage userMessage] O;
     conversation := [UserMessage userMessage];
     iterationCounter := O;
     invocations := O |}.

(** Modelled from the spec: a run with bound [N].  An iteration is two
    transitions. *)
Definition runAgent (N : nat) (userMessage : string) : M Loop :=
  steps N (2 * N) (initial N userMessage).

(** Modelled from the spec: the iteration counter is a bounded integer.
    It never exceeds [N], and while an iteration is under way it is below
    [N]. *)
Definition withinBound (N : nat) (l : Loop) : Prop :=
  (iterationCounter l ≤ N)%nat
  ∧ match phase l with
    | AWAITING_MODEL | EXECUTING_TOOLS _ => (iterationCounter l < N)%nat
    | DONE _ | ABORTED_LIMIT _ => True
    end.

End Agent.

(** ** Scripted worlds and states for the examples *)

(** A world in which every start and every close succeeds, the discovery
    on the transport [h] is answered by the [h]-th element of [catalogs],
    and every tool call by [reply]. *)
Definition scriptedWorld (catalogs : list (exn + list RawTool))
    (reply : exn + value) : World :=
  {| processEnv := ∅;
     startOutcome := λ _, None;
     listToolsOutcome := λ tr,
       match last tr with
       | Some (EvListTools h) =>
           default (inl (External "no such transport")) (catalogs !! h)
       | _ => inl (External "no request")
       end;
     callToolOutcome := λ _, reply;
     closeOutcome := λ _, None |}.

Definition rawTool (name : string) : RawTool :=
  {| raw_name := name; raw_description := None; raw_inputSchema := VObj [] |}.

Definition entryNamed (name : string) : ServerEntry :=
  {| entry_name := name; entry_command := "npx";
     entry_args := []; entry_env := ∅ |}.

(** A manager connected to [github] and [jira], with one argument object
    [{ q: "bug" }] on the heap. *)
Definition connectedState (orgs : list string) (q : string) : State :=
  {| servers := [connectedServer (entryNamed "github") 0%nat
                   [rawTool "search_issues"];
                 connectedServer (entryNamed "jira") 1%nat
                   [rawTool "createJiraIssue"]];
     githubOrgs := orgs;
     heap := [ {["q" := VStr q]} ];
     created := 2%nat;
     trace := [] |}.

(** A provider that asks for one tool call on every invocation. *)
Definition alwaysToolUse : string → list Message → list MCPTool → exn + Response :=
  λ _ _ _, inr (ToolUseTurn (Some "looking")
                  [ {| req_qualifiedName := "github__search_issues";
                       req_arguments := {["q" := VStr "bug"]} |} ]).

(** The configuration used in the examples of the registry. *)
Definition exampleConfig (gh ji sl : bool) : Config :=
  {| github := {| github_enabled := gh; github_token_env := "GITHUB_TOKEN";
                  github_orgs := ["acme"; "west"] |};
     jira := {| jira_enabled := ji; jira_url := "https://mcp.atlassian.com/v1/sse" |};
     slack := {| slack_enabled := sl; slack_token_env := "SLACK_BOT_TOKEN" |} |}.

(** GitHub alone, its token read from the variable [tokenEnv]. *)
Definition githubOnly (tokenEnv : string) : Config :=
  {| github := {| github_enabled := true; github_token_env := tokenEnv;
                  github_orgs := [] |};
     jira := {| jira_enabled := false; jira_url := "" |};
     slack := {| slack_enabled := false; slack_token_env := "" |} |}.

(** The catalog contributed by an attempt of [connect]. *)
Definition catalogOf (a : ServerEntry * handle * (exn + list RawTool))
    : list MCPTool :=
  match a with
  | (entry, _, inr result) => map (toMCPTool entry) result
  | (_, _, inl _) => []
  end.

(** The query carried by the last remote tool call of a trace. *)
Definition forwardedQuery (tr : list event) : option value :=
  match last (omap remoteCallOf tr) with
  | Some (_, _, a) => a !! "q"
  | None => None
  end.

(** Three descriptors; the discovery on the second transport fails. *)
Definition threeEntries : list ServerEntry :=
  [entryNamed "github"; entryNamed "jira"; entryNamed "slack"].

Definition secondDiscoveryFails : World :=
  scriptedWorld
    [inr [rawTool "search_issues"];
     inl (External "discovery failed");
     inr [rawTool "search_messages"]]
    (inr VNull).

(** Server A with two tools, then server B with one. *)
Definition twoThenOne : World :=
  scriptedWorld
    [inr [rawTool "tool1"; rawTool "tool2"]; inr [rawTool "tool1"]]
    (inr VNull).

(** ** More of [client.ts]: the two outcomes of a routed call *)

(** The handle asked to close by an event. *)
Definition closeOf (e : event) : option handle :=
  match e with EvClose h => Some h | _ => None end.

(** What the block guarded by the GitHub test decides for the arguments
    [a]: to raise, to leave them ([None]), or the new object to send. *)
Definition queryRewrite (orgs : list string) (a : obj) : exn + option obj :=
  match a !! "q" with
  | Some v =>
      if truthy (Some v) then
        match qIncludes "org:" v with
        | inl e => inl e
        | inr true => inr None
        | inr false =>
            inr (Some (<["q" := VStr (orgFilter orgs +:+ " " +:+ toString v)]> a))
        end
      else inr None
  | None => inr None
  end.

(** The last two statements of [callTool]: the debug line and the remote
    call on the object [ref]. *)
Definition forwardCall (W : World) (serverName toolName : string)
    (server : ConnectedServer) (ref : loc) (st : State) : (exn + value) * State :=
  let a := readObj (heap st) ref in
  let st' :=
    set_trace (λ t, t ++ [EvDebug (MsgCalling serverName toolName a);
                          EvCallTool (server_client server) toolName ref a])
      st in
  (callToolOutcome W (trace st'), st').

(** The test that guards the rewrite. *)
Definition rewriteApplies (serverName toolName : string) (st : State) : bool :=
  bool_decide (serverName = "github")
  && bool_decide (toolName = "search_issues")
  && bool_decide (0 < length (githubOrgs st))%nat.

(** ** [cmdSchedule] (index.ts) *)

(** How a command ends: it returns, it raises, or it calls
    [process.exit]. *)
Inductive Completion : Type :=
| Returns
| Raises (e : exn)
| Exits (code : Z).

Module Schedule.

(** The character class [\d]. *)
Definition isDigit (c : ascii) : bool :=
  (48 <=? nat_of_ascii c)%nat && (nat_of_ascii c <=? 57)%nat.

(** The longest prefix whose characters satisfy [p], and what follows. *)
Fixpoint span (p : ascii → bool) (s : string) : string * string :=
  match s with
  | EmptyString => ("", "")
  | String c t =>
      if p c then (String c (fst (span p t)), snd (span p t)) else ("", s)
  end.

(** [s] starts with no digit. *)
Definition fst_not_digit (s : string) : Prop := fst (span isDigit s) = "".

(** The string consists of digits only. *)
Definition digits (s : string) : Prop := span isDigit s = (s, "").

(** [s.toLowerCase()], on the letters A to Z; the strings it is applied to
    here matched a pattern of digits and ASCII letters. *)
Definition lowerChar (c : ascii) : ascii :=
  if (65 <=? nat_of_ascii c)%nat && (nat_of_ascii c <=? 90)%nat
  then ascii_of_nat (nat_of_ascii c + 32)
  else c.

Fixpoint toLowerCase (s : string) : string :=
  match s with
  | EmptyString => ""
  | String c t => String (lowerChar c) (toLowerCase t)
  end.

(** The value of a string of decimal digits, read after [acc]. *)
Fixpoint digitsValue (acc : N) (ds : string) : N :=
  match ds with
  | EmptyString => acc
  | String c t => digitsValue (10 * acc + (N.of_nat (nat_of_ascii c) - 48))%N t
  end.

(** [parseInt(s)] for a string that starts with one or two decimal digits
    and goes on with a letter other than [x]: the value of the digits.
    The strings parsed so matched the first pattern. *)
Definition parseInt (s : string) : N := digitsValue 0 (fst (span isDigit s)).

(** The text of a number that holds the integer [n] exactly, in
    decimal. *)
Fixpoint decimalGo (fuel : nat) (n : N) (acc : string) : string :=
  match fuel with
  | O => acc
  | S fuel' =>
      let acc' := String (ascii_of_N (48 + n mod 10)) acc in
      if (n / 10 =? 0)%N then acc' else decimalGo fuel' (n / 10)%N acc'
  end.

Definition decimal (n : N) : string :=
  decimalGo (S (N.to_nat (N.log2 n))) n "".

(** [/^\d{1,2}(am|pm)$/i] *)
Definition matchesClock (time : string) : bool :=
  let ds := fst (span isDigit time) in
  let rest := toLowerCase (snd (span isDigit time)) in
  bool_decide (1 ≤ String.length ds ≤ 2)%nat
  && (bool_decide (rest = "am") || bool_decide (rest = "pm")).

(** [/^\*\/\d+h$/] and [/^\*\/\d+m$/], by their last letter. *)
Definition matchesEvery (unit : string) (time : string) : bool :=
  Str.startsWith "*/" time
  && negb (bool_decide (fst (span isDigit (Str.drop 2 time)) = ""))
  && bool_decide (snd (span isDigit (Str.drop 2 time)) = unit).

Section WithEngine.

(** The text of a number that is no longer exact.  From 2^53 on a
    JavaScript number holds the value of a string of digits rounded, and
    its text is the engine's: rounded digits, an exponent from 10^21 on,
    [Infinity]; [rounded ds] is that text for the digits [ds]. *)
Variable rounded : string → string.

(** [`${parseInt(s)}`] for a string that starts with a decimal digit and
    goes on, after its digits, with a letter other than [x].  Below 2^53
    the number is the value of the digits and its text is that value in
    decimal. *)
Definition numberText (s : string) : string :=
  let ds := fst (span isDigit s) in
  if (digitsValue 0 ds <? 2 ^ 53)%N then decimal (digitsValue 0 ds)
  else rounded ds.

(** The chain of tests of [cmdSchedule] that sets [cronExpr]. *)
Definition cronExpr (time : string) : string :=
  if matchesClock time then
    let hour := parseInt time in
    let hour :=
      if Str.includes "pm" (toLowerCase time) && negb (hour =? 12)%N
      then (hour + 12)%N else hour in
    let hour :=
      if Str.includes "am" (toLowerCase time) && (hour =? 12)%N
      then 0%N else hour in
    "0 " +:+ decimal hour +:+ " * * *"
  else if matchesEvery "h" time then
    let hours := numberText (Str.slice time 2 None) in
    "0 */" +:+ hours +:+ " * * *"
  else if matchesEvery "m" time then
    let minutes := numberText (Str.slice time 2 None) in
    "*/" +:+ minutes +:+ " * * * *"
  else time.

(** [args.indexOf(x)] *)
Fixpoint indexOfArg (x : string) (args : list string) : option nat :=
  match args with
  | [] => None
  | a :: rest => if bool_decide (a = x) then Some O else S <$> indexOfArg x rest
  end.

(** The double quote and the line feed. *)
Definition dq : string := String (ascii_of_nat 34) "".
Definition nl : string := String (ascii_of_nat 10) "".

Definition usage : list string :=
  ["Usage: contxt schedule --every " +:+ dq +:+ "9am" +:+ dq;
   "       contxt schedule --every " +:+ dq +:+ "*/6h" +:+ dq;
   "       contxt schedule --every " +:+ dq +:+ "*/15m" +:+ dq].

(** [cmdSchedule]: the lines written by [console.log] and how the command
    ends.  [args] is [process.argv.slice(2)] and [binPath] is
    [process.argv[1]]. *)
Definition cmdSchedule (args : list string) (execPath binPath : string)
    : list string * Completion :=
  match indexOfArg "--every" args with
  | None => (usage, Exits 1)
  | Some everyIdx =>
      match args !! S everyIdx with
      | None => (usage, Exits 1)
      | Some time =>
          if bool_decide (time = "") then (usage, Exits 1)
          else
            let cronLine :=
              cronExpr time +:+ " " +:+ execPath +:+ " " +:+ binPath
              +:+ " run" in
            (["Add this to your crontab (crontab -e):" +:+ nl;
              "  " +:+ cronLine;
              nl +:+ "Or run:";
              "  (crontab -l 2>/dev/null; echo " +:+ dq +:+ cronLine
                +:+ dq +:+ ") | crontab -"],
             Returns)
      end
  end.

End WithEngine.

End Schedule.

(** ** [report/memory.ts] *)

From stdpp Require sorting.

Module Memory.

(** *** The file system

    What a directory holds under a name (a file, with the text it reads
    as, or a directory), a directory as [readdirSync] lists it, and the
    directories by path.  What else decides whether a request succeeds
    (permissions, a file where a directory is wanted, a full disk) is
    the host's: [refusal] gives the error with which the host refuses a
    request, if it does. *)
Inductive node : Type :=
| File (content : string)
| Directory.

Inductive request : Type :=
| Mkdir (dir : string)
| Readdir (dir : string)
| ReadFile (dir name : string)
| WriteFile (dir name : string).

Record FileSystem := {
  tree : gmap string (list (string * node));
  refusal : request → option exn;
}.

Definition sq : string := String (ascii_of_nat 39) "".

(** The errors of [fs], with the message Node gives them. *)
Definition ENOENT (syscall path : string) : exn :=
  External ("ENOENT: no such file or directory, " +:+ syscall +:+ " "
            +:+ sq +:+ path +:+ sq).

Definition EISDIR_open (path : string) : exn :=
  External ("EISDIR: illegal operation on a directory, open "
            +:+ sq +:+ path +:+ sq).

Definition EISDIR_read : exn :=
  External "EISDIR: illegal operation on a directory, read".

(** The file system with the directory [dir]: one that exists is left as
    it is. *)
Definition ensureDir (dir : string) (fs : FileSystem) : FileSystem :=
  match tree fs !! dir with
  | Some _ => fs
  | None => {| tree := <[dir := []]> (tree fs); refusal := refusal fs |}
  end.

(** [mkdirSync(dir, { recursive: true })]: the empty path is refused. *)
Definition mkdir (dir : string) (fs : FileSystem) : exn + FileSystem :=
  if bool_decide (dir = "") then inl (ENOENT "mkdir" "")
  else
    match refusal fs (Mkdir dir) with
    | Some e => inl e
    | None => inr (ensureDir dir fs)
    end.

(** [existsSync(dir)] *)
Definition existsDir (dir : string) (fs : FileSystem) : bool :=
  bool_decide (is_Some (tree fs !! dir)).

(** [readdirSync(dir)] *)
Definition readdir (dir : string) (fs : FileSystem) : exn + list string :=
  match refusal fs (Readdir dir) with
  | Some e => inl e
  | None =>
      match tree fs !! dir with
      | Some entries => inr (map fst entries)
      | None => inl (ENOENT "scandir" dir)
      end
  end.

Definition lookupEntry (name : string) (entries : list (string * node))
    : option node :=
  snd <$> List.find (λ e, bool_decide (e.1 = name)) entries.

(** [readFileSync(path, "utf-8")] where [path] is [join(dir, name)], for
    a name without a path separator. *)
Definition readFile (path dir name : string) (fs : FileSystem)
    : exn + string :=
  match refusal fs (ReadFile dir name) with
  | Some e => inl e
  | None =>
      match tree fs !! dir with
      | Some entries =>
          match lookupEntry name entries with
          | Some (File content) => inr content
          | Some Directory => inl EISDIR_read
          | None => inl (ENOENT "open" path)
          end
      | None => inl (ENOENT "open" path)
      end
  end.

Fixpoint putEntry (name content : string) (entries : list (string * node))
    : list (string * node) :=
  match entries with
  | [] => [(name, File content)]
  | e :: rest =>
      if bool_decide (e.1 = name) then (name, File content) :: rest
      else e :: putEntry name content rest
  end.

(** [writeFileSync(path, content)] where [path] is [join(dir, name)], for
    a name without a path separator: the file is replaced or created. *)
Definition writeFile (path dir name content : string) (fs : FileSystem)
    : exn + FileSystem :=
  match refusal fs (WriteFile dir name) with
  | Some e => inl e
  | None =>
      match tree fs !! dir with
      | Some entries =>
          match lookupEntry name entries with
          | Some Directory => inl (EISDIR_open path)
          | _ =>
              inr {| tree := <[dir := putEntry name content entries]> (tree fs);
                     refusal := refusal fs |}
          end
      | None => inl (ENOENT "open" path)
      end
  end.

(** *** Library functions *)

(** [s.endsWith(suffix)] *)
Definition endsWith (suffix s : string) : bool :=
  bool_decide (String.length suffix ≤ String.length s)%nat
  && bool_decide
       (Str.drop (String.length s - String.length suffix) s = suffix).

(** The replacement text of [String.prototype.replace] for a string
    pattern: [$$] is a dollar, [$&] the match, [$`] and [$'] what is
    before and after it; without groups every other dollar is itself. *)
Fixpoint substitution (matched before after : string) (r : string) : string :=
  match r with
  | EmptyString => ""
  | String a r' =>
      if bool_decide (a = "$"%char) then
        match r' with
        | String c t =>
            if bool_decide (c = "$"%char) then
              "$" +:+ substitution matched before after t
            else if bool_decide (c = "&"%char) then
              matched +:+ substitution matched before after t
            else if bool_decide (c = "`"%char) then
              before +:+ substitution matched before after t
            else if bool_decide (c = "'"%char) then
              after +:+ substitution matched before after t
            else String a (substitution matched before after r')
        | EmptyString => "$"
        end
      else String a (substitution matched before after r')
  end.

(** [s.replace(pat, replacement)] for a string pattern: the first
    occurrence only. *)
Definition replaceFirst (pat replacement s : string) : string :=
  match Str.search pat s with
  | None => s
  | Some i =>
      let before := Str.take i s in
      let after := Str.drop (i + String.length pat) s in
      before +:+ substitution pat before after replacement +:+ after
  end.

(** [s.split(sep)[0]] for a separator that is not empty. *)
Definition beforeFirst (sep s : string) : string :=
  match Str.search sep s with
  | Some i => Str.take i s
  | None => s
  end.

(** The UTF-16 code units of a string, which is kept as its UTF-8
    bytes: one unit for a character of one, two or three bytes, and the
    two surrogates for a character of four.  A byte that begins no
    character stands for itself; [readdirSync] returns no such name. *)
Fixpoint codeUnits (s : string) : list N :=
  match s with
  | EmptyString => []
  | String a s1 =>
      let b0 := N_of_ascii a in
      let single := b0 :: codeUnits s1 in
      if (b0 <? 192)%N then single
      else if (b0 <? 224)%N then
        match s1 with
        | String b s2 =>
            ((b0 - 192) * 64 + N_of_ascii b mod 64)%N :: codeUnits s2
        | _ => single
        end
      else if (b0 <? 240)%N then
        match s1 with
        | String b (String c s3) =>
            ((b0 - 224) * 4096 + N_of_ascii b mod 64 * 64
             + N_of_ascii c mod 64)%N :: codeUnits s3
        | _ => single
        end
      else
        match s1 with
        | String b (String c (String d s4)) =>
            let v := ((b0 - 240) * 262144 + N_of_ascii b mod 64 * 4096
                      + N_of_ascii c mod 64 * 64 + N_of_ascii d mod 64
                      - 65536)%N in
            (55296 + v / 1024)%N :: (56320 + v mod 1024)%N :: codeUnits s4
        | _ => single
        end
  end.

(** The comparison of two sequences of code units, the first difference
    deciding. *)
Fixpoint compareUnits (x y : list N) : comparison :=
  match x, y with
  | [], [] => Eq
  | [], _ :: _ => Lt
  | _ :: _, [] => Gt
  | a :: x', b :: y' =>
      match (a ?= b)%N with
      | Eq => compareUnits x' y'
      | c => c
      end
  end.

(** The order of [names.sort()]: by code units.  Two strings with the
    same code units are the same name, unless their bytes are no UTF-8;
    for these the bytes decide, which keeps the order total. *)
Definition nameLe (a b : string) : Prop :=
  match compareUnits (codeUnits a) (codeUnits b) with
  | Lt => True
  | Eq => String.le a b
  | Gt => False
  end.

Global Instance nameLe_dec : RelDecision nameLe.
Proof.
  intros a b. unfold nameLe.
  destruct (compareUnits (codeUnits a) (codeUnits b)); apply _.
Defined.

(** [names.sort()]: by code units, ascending. *)
Definition sort (names : list string) : list string :=
  sorting.merge_sort nameLe names.

(** [xs.slice(0, n)] *)
Definition sliceTo {A} (xs : list A) (n : Z) : list A :=
  take (Z.to_nat (Str.clamp (Z.of_nat (length xs)) n)) xs.

(** *** memory.ts *)

(** [config.report] *)
Record ReportConfig := {
  output_dir : string;
  memory_depth : Z;
}.

(** The directory of the reports, for the home directory [home]. *)
Definition reportDir (home : string) (config : ReportConfig) : string :=
  replaceFirst "~" home (output_dir config).

Section WithHost.

(** [homedir()], which raises on a host that knows no home directory,
    Node's [path.join] and [new Date().toISOString()]. *)
Variable homedir : exn + string.
Variable pathJoin : string → string → string.
Variable now : string.

Definition resolveDir (config : ReportConfig) (fs : FileSystem)
    : (exn + string) * FileSystem :=
  match homedir with
  | inl e => (inl e, fs)
  | inr home =>
      let dir := replaceFirst "~" home (output_dir config) in
      match mkdir dir fs with
      | inl e => (inl e, fs)
      | inr fs' => (inr dir, fs')
      end
  end.

(** The body of [files.map(...)]. *)
Definition section (dir : string) (fs : FileSystem) (f : string)
    : exn + string :=
  match readFile (pathJoin dir f) dir f fs with
  | inl e => inl e
  | inr content =>
      let date := replaceFirst ".md" "" f in
      inr ("--- Report from " +:+ date +:+ " ---" +:+ Schedule.nl +:+ content)
  end.

(** [xs.map(f)] for an [f] that may throw: the first failure wins. *)
Fixpoint mapM {A B} (f : A → exn + B) (xs : list A) : exn + list B :=
  match xs with
  | [] => inr []
  | x :: rest =>
      match f x with
      | inl e => inl e
      | inr y =>
          match mapM f rest with
          | inl e => inl e
          | inr ys => inr (y :: ys)
          end
      end
  end.

Definition isReport (f : string) : bool := endsWith ".md" f.

(** The entries of a directory, none when it does not exist, and the
    report files among them, newest first. *)
Definition entriesOf (dir : string) (fs : FileSystem) : list (string * node) :=
  default [] (tree fs !! dir).

Definition reportsOf (entries : list (string * node)) : list string :=
  reverse (sort (filter (λ f, isReport f = true) (map fst entries))).

Definition loadPastReports (config : ReportConfig) (fs : FileSystem)
    : (exn + string) * FileSystem :=
  match resolveDir config fs with
  | (inl e, fs) => (inl e, fs)
  | (inr dir, fs) =>
      if negb (existsDir dir fs) then (inr "", fs)
      else
        match readdir dir fs with
        | inl e => (inl e, fs)
        | inr names =>
            let files :=
              sliceTo (reverse (sort (filter (λ f, isReport f = true) names)))
                (memory_depth config) in
            if bool_decide (length files = O) then (inr "", fs)
            else
              match mapM (section dir fs) files with
              | inl e => (inl e, fs)
              | inr sections =>
                  (inr (Str.join (Schedule.nl +:+ Schedule.nl) sections), fs)
              end
        end
  end.

Definition saveReport (config : ReportConfig) (report : string)
    (fs : FileSystem) : (exn + string) * FileSystem :=
  match resolveDir config fs with
  | (inl e, fs) => (inl e, fs)
  | (inr dir, fs) =>
      let date := beforeFirst "T" now in
      let path := pathJoin dir (date +:+ ".md") in
      match writeFile path dir (date +:+ ".md") report fs with
      | inl e => (inl e, fs)
      | inr fs' => (inr path, fs')
      end
  end.

Definition listReports (config : ReportConfig) (fs : FileSystem)
    : (exn + list string) * FileSystem :=
  match resolveDir config fs with
  | (inl e, fs) => (inl e, fs)
  | (inr dir, fs) =>
      if negb (existsDir dir fs) then (inr [], fs)
      else
        match readdir dir fs with
        | inl e => (inl e, fs)
        | inr names =>
            (inr (reverse (sort (filter (λ f, isReport f = true) names))), fs)
        end
  end.

End WithHost.

End Memory.

(** ** [cmdRun] (index.ts) *)

Module Run.

(** What the command writes: [error], [log] and [console.log]. *)
Inductive output : Type :=
| ErrLine (msg : string)
| LogLine (msg : string)
| OutLine (msg : string).

(** What [cmdRun] gets from the host and from the modules it calls that
    are not modelled: whether the configuration exists and what loading
    it gives ([config.ts]), the home directory, [path.join], the clock,
    the two prompts, which are the text templates of [report/prompt.ts],
    and the run of the agent on the manager, which returns the report
    ([llm/anthropic.ts], [llm/agent.ts]). *)
Record Host := {
  configExists : bool;
  loadConfig : exn + Config * Memory.ReportConfig;
  configPath : string;
  home : exn + string;
  pathJoin : string → string → string;
  now : string;
  buildSystemPrompt : string → string;
  userMessage : string;
  agent : string → string → M string;
}.

(** The outcome of a run: how it ended, the manager if one was made, the
    file system and the lines written. *)
Record Result := {
  how : Completion;
  manager : option State;
  files : Memory.FileSystem;
  printed : list output;
}.

(** The line printed for a tool by [--dry]. *)
Definition toolLine (t : MCPTool) : output :=
  OutLine ("  " +:+ tool_name t +:+ " — "
           +:+ default "(no description)" (tool_description t)).

Section WithWorld.

Variable W : World.
Variable H : Host.

(** The [try] block. *)
Definition tryBlock (report : Memory.ReportConfig) (isDry noSave : bool)
    (servers : list ServerEntry) (st0 : State) (fs : Memory.FileSystem)
    : Result :=
  match connect W servers st0 with
  | (inl e, st1) =>
      {| how := Raises e; manager := Some st1; files := fs; printed := [] |}
  | (inr _, st1) =>
      match getAllTools st1 with
      | (inl e, st2) =>
          {| how := Raises e; manager := Some st2; files := fs; printed := [] |}
      | (inr tools, st2) =>
          if bool_decide (length tools = O) then
            {| how := Exits 1; manager := Some st2; files := fs;
               printed := [ErrLine "No tools available from any MCP server."] |}
          else if isDry then
            {| how := Returns; manager := Some st2; files := fs;
               printed :=
                 LogLine (Schedule.decimal (N.of_nat (length tools))
                          +:+ " tools available:")
                 :: map toolLine tools |}
          else
            match Memory.loadPastReports (home H) (pathJoin H) report fs with
            | (inl e, fs1) =>
                {| how := Raises e; manager := Some st2; files := fs1;
                   printed := [] |}
            | (inr pastReports, fs1) =>
                match agent H (buildSystemPrompt H pastReports)
                        (userMessage H) st2 with
                | (inl e, st3) =>
                    {| how := Raises e; manager := Some st3; files := fs1;
                       printed := [] |}
                | (inr text, st3) =>
                    if noSave then
                      {| how := Returns; manager := Some st3; files := fs1;
                         printed := [OutLine text] |}
                    else
                      match Memory.saveReport (home H) (pathJoin H) (now H)
                              report text fs1 with
                      | (inl e, fs2) =>
                          {| how := Raises e; manager := Some st3;
                             files := fs2; printed := [OutLine text] |}
                      | (inr path, fs2) =>
                          {| how := Returns; manager := Some st3;
                             files := fs2;
                             printed :=
                               [OutLine text;
                                LogLine ("Report saved to " +:+ path)] |}
                      end
                end
            end
      end
  end.

(** The [finally] block: it runs unless the process has exited. *)
Definition finallyDisconnect (r : Result) : Result :=
  match how r, manager r with
  | Exits _, _ => r
  | h, Some st =>
      match disconnect W st with
      | (inl e, st') =>
          {| how := Raises e; manager := Some st'; files := files r;
             printed := printed r |}
      | (inr _, st') =>
          {| how := h; manager := Some st'; files := files r;
             printed := printed r |}
      end
  | _, None => r
  end.

(** [cmdRun]; [args] is [process.argv.slice(2)]. *)
Definition cmdRun (args : list string) (fs : Memory.FileSystem) : Result :=
  if negb (configExists H) then
    {| how := Exits 1; manager := None; files := fs;
       printed := [ErrLine ("Config not found. Run " +:+ Schedule.dq
                            +:+ "contxt init" +:+ Schedule.dq +:+ " first.")] |}
  else
    match loadConfig H with
    | inl e => {| how := Raises e; manager := None; files := fs; printed := [] |}
    | inr (config, report) =>
        let isDry := bool_decide ("--dry" ∈ args) in
        let noSave := bool_decide ("--no-save" ∈ args) in
        match getEnabledServers (processEnv W) config with
        | inl e =>
            {| how := Raises e; manager := None; files := fs; printed := [] |}
        | inr servers =>
            if bool_decide (length servers = O) then
              {| how := Exits 1; manager := None; files := fs;
                 printed := [ErrLine ("No integrations enabled. Edit your config: "
                                      +:+ configPath H)] |}
            else
              finallyDisconnect
                (tryBlock report isDry noSave servers
                   (newManager (github_orgs (github config)) []) fs)
        end
    end.

End WithWorld.

End Run.

(** A host for the examples: the configuration exists, reports are kept in
    [~/reports], and the agent is given. *)
Definition exampleHost (config : Config) (agent : string → string → M string)
    : Run.Host :=
  {| Run.configExists := true;
     Run.loadConfig :=
       inr (config, {| Memory.output_dir := "~/reports";
                       Memory.memory_depth := 3 |});
     Run.configPath := "/home/u/.contxt/config.toml";
     Run.home := inr "/home/u";
     Run.pathJoin := λ dir f, dir +:+ "/" +:+ f;
     Run.now := "2025-01-02T03:04:05.000Z";
     Run.buildSystemPrompt := λ past, "memory: " +:+ past;
     Run.userMessage := "report";
     Run.agent := agent |}.

(** An agent that returns [text] and one that fails with [e], both
    without using the manager. *)
Definition agentReturning (text : string) : string → string → M string :=
  λ _ _ st, (inr text, st).

Definition agentRaising (e : exn) : string → string → M string :=
  λ _ _ st, (inl e, st).

(** A file system with nothing in it, on a host that refuses nothing. *)
Definition emptyFiles : Memory.FileSystem :=
  {| Memory.tree := ∅; Memory.refusal := λ _, None |}.

(** * Properties *)

(** ** Facts about the string primitives *)

Module StrFacts.
Import Str.

Lemma app_cons a s t : String a s +:+ t = String a (s +:+ t).
Proof. reflexivity. Qed.

Lemma app_assoc s t u : (s +:+ t) +:+ u = s +:+ t +:+ u.
Proof. induction s as [|a s IH]; [done|]. rewrite !app_cons. by f_equal. Qed.

Lemma length_app s t :
  String.length (s +:+ t) = (String.length s + String.length t)%nat.
Proof.
  induction s as [|a s IH]; [done|]. rewrite app_cons. simpl. by rewrite IH.
Qed.

Lemma take_app s t : take (String.length s) (s +:+ t) = s.
Proof.
  induction s as [|a s IH]; [by destruct t|].
  rewrite app_cons. simpl. by rewrite IH.
Qed.

Lemma drop_app s t : drop (String.length s) (s +:+ t) = t.
Proof. induction s as [|a s IH]; [by destruct t | by rewrite app_cons]. Qed.

Lemma take_ge n s : (String.length s ≤ n)%nat → take n s = s.
Proof.
  revert n. induction s as [|a s IH]; intros [|n] Hn; simpl in *;
    [done | done | lia | rewrite IH; [done | lia]].
Qed.

Lemma length_drop n s :
  String.length (drop n s) = (String.length s - n)%nat.
Proof.
  revert n. induction s as [|a s IH]; intros [|n]; simpl; [done..|apply IH].
Qed.

(** Cutting at an index inside the string needs no clamping. *)
Lemma slice_prefix s n :
  (n ≤ String.length s)%nat → slice s 0 (Some (Z.of_nat n)) = take n s.
Proof.
  intros Hn. unfold slice, clamp. simpl default.
  change (0 <? 0) with false. cbv iota.
  destruct (Z.of_nat n <? 0) eqn:E; [lia|].
  set (len := Z.of_nat (String.length s)).
  replace (Z.to_nat (Z.min 0 len)) with O by lia.
  by replace (Z.to_nat (Z.min (Z.of_nat n) len - Z.min 0 len)) with n by lia.
Qed.

Lemma slice_suffix s n :
  (n ≤ String.length s)%nat → slice s (Z.of_nat n) None = drop n s.
Proof.
  intros Hn. unfold slice, clamp. simpl default.
  set (len := Z.of_nat (String.length s)).
  destruct (Z.of_nat n <? 0) eqn:E; [lia|].
  destruct (len <? 0) eqn:E'; [lia|].
  replace (Z.to_nat (Z.min (Z.of_nat n) len)) with n by lia.
  apply take_ge. rewrite length_drop. lia.
Qed.

Lemma search_unfold pat s :
  search pat s =
    if startsWith pat s then Some O
    else match s with
         | EmptyString => None
         | String _ t => S <$> search pat t
         end.
Proof. by destruct s. Qed.

Lemma includes_false pat s : includes pat s = false ↔ search pat s = None.
Proof.
  unfold includes, indexOf. rewrite bool_decide_eq_false.
  destruct (search pat s); split; intros H; try done; [|lia].
  exfalso. apply H. lia.
Qed.

(** In a name that is free of the separator and does not end in an
    underscore, followed by the separator, the separator is first found
    where the name ends. *)
Lemma search_sep_app s raw :
  search "__" s = None → endsWithChar "_" s = false →
  search "__" (s +:+ "__" +:+ raw) = Some (String.length s).
Proof.
  induction s as [|a s IH]; intros Hs He; [done|].
  rewrite search_unfold in Hs.
  destruct (startsWith "__" (String a s)) eqn:Hp; [done|].
  destruct (search "__" s) eqn:Hs'; [done|]. clear Hs.
  rewrite app_cons, search_unfold.
  assert (startsWith "__" (String a (s +:+ "__" +:+ raw)) = false) as ->.
  { destruct s as [|b s].
    - simpl in He. apply bool_decide_eq_false in He.
      simpl. rewrite bool_decide_eq_false_2; [done | congruence].
    - rewrite app_cons. simpl in Hp |- *.
      by destruct (bool_decide (_ = a)), (bool_decide (_ = b)). }
  destruct s as [|b s]; [done|].
  rewrite IH; [done | done | by destruct s].
Qed.

End StrFacts.

(** ** Qualified names *)

Lemma parseName_qualifiedName serverName rawName :
  Str.includes "__" serverName = false →
  Str.endsWithChar "_" serverName = false →
  parseName (qualifiedName serverName rawName) = Some (serverName, rawName).
Proof.
  intros Hinc%StrFacts.includes_false Hend.
  unfold parseName, qualifiedName, Str.indexOf.
  rewrite (StrFacts.search_sep_app _ rawName Hinc Hend).
  rewrite bool_decide_eq_false_2 by lia.
  replace (Z.of_nat (String.length serverName) + 2)
    with (Z.of_nat (String.length (serverName +:+ "__"))).
  2:{ rewrite StrFacts.length_app. simpl. lia. }
  rewrite StrFacts.slice_prefix, StrFacts.slice_suffix.
  - rewrite StrFacts.take_app.
    by rewrite <- StrFacts.app_assoc, StrFacts.drop_app.
  - rewrite <- StrFacts.app_assoc, !StrFacts.length_app. lia.
  - rewrite StrFacts.length_app. lia.
Qed.

(** C1, as stated, fails: the server name ["a_"] is free of the separator,
    yet the name [connect] builds for its tool ["x"] is cut by [callTool]
    into the server ["a"] and the tool ["_x"]. *)
Lemma trailing_underscore_breaks_roundtrip :
  ¬ (∀ entry t,
       Str.includes "__" (entry_name entry) = false →
       parseName (tool_name (toMCPTool entry t))
       = Some (entry_name entry, raw_name t)).
Proof.
  intros H. specialize (H (entryNamed "a_") (rawTool "x") eq_refl).
  vm_compute in H. discriminate H.
Qed.

(** C1 (amended): for every server name that contains no ["__"] and does
    not end in ["_"], and every raw tool name, the qualified name built by
    [connect] is cut by [callTool], at the first ["__"], back into exactly
    the server name and the raw tool name. *)
Theorem qualified_name_roundtrip entry t :
  Str.includes "__" (entry_name entry) = false →
  Str.endsWithChar "_" (entry_name entry) = false →
  parseName (tool_name (toMCPTool entry t))
  = Some (entry_name entry, raw_name t).
Proof. intros. by apply parseName_qualifiedName. Qed.

Lemma qualified_name_roundtrip_witness :
  parseName (tool_name (toMCPTool (entryNamed "github") (rawTool "search_issues")))
  = Some ("github", "search_issues").
Proof.
  apply (qualified_name_roundtrip (entryNamed "github") (rawTool "search_issues"));
    reflexivity.
Defined.

(** ** Running the monad *)

Ltac unfold_M :=
  unfold log, error, debug, newTransport, clientConnect, clientListTools,
    clientCallTool, transportClose, alloc, emit, modify, get, throw,
    of_outcome, of_failure, try_catch;
  unfold mbind, M_bind, mret, M_ret;
  cbn -[app].

(** ** connect *)

(** One turn of the loop never raises, pushes a server exactly when the
    start and the discovery both succeed, and starts one transport. *)
Lemma connectEntry_spec W entry st :
  ∃ st',
    connectEntry W entry st = (inr tt, st')
    ∧ servers st' = servers st
        ++ option_list (established (entry, created st, attemptOutcome W st entry))
    ∧ githubOrgs st' = githubOrgs st
    ∧ heap st' = heap st
    ∧ created st' = S (created st)
    ∧ omap startOf (trace st')
      = omap startOf (trace st) ++ [(created st, transportParams W entry)].
Proof.
  unfold connectEntry, attemptOutcome, transportParams. unfold_M.
  rewrite <- !(assoc_L (++)). simpl.
  destruct (startOutcome W _) as [e|] eqn:Hstart; unfold throw; cbn -[app].
  { eexists. split; [reflexivity|]. cbn -[app].
    rewrite app_nil_r, !omap_app. simpl. by rewrite !app_nil_r. }
  rewrite <- !(assoc_L (++)). simpl.
  destruct (listToolsOutcome W _) as [e|result] eqn:Hlist.
  { eexists. split; [reflexivity|]. cbn -[app].
    rewrite app_nil_r, !omap_app. simpl. by rewrite !app_nil_r. }
  eexists. split; [reflexivity|]. cbn -[app].
  rewrite !omap_app. simpl. by rewrite !app_nil_r.
Qed.

Lemma connect_cons W entry rest st :
  connect W (entry :: rest) st = connect W rest (snd (connectEntry W entry st)).
Proof.
  destruct (connectEntry_spec W entry st) as (st' & Hrun & _).
  unfold connect. cbn [for_each]. unfold mbind, M_bind. by rewrite Hrun.
Qed.

Lemma connect_spec W entries st :
  ∃ st',
    connect W entries st = (inr tt, st')
    ∧ servers st' = servers st ++ omap established (attempts W st entries)
    ∧ githubOrgs st' = githubOrgs st
    ∧ heap st' = heap st
    ∧ created st' = (created st + length entries)%nat
    ∧ omap startOf (trace st')
      = omap startOf (trace st)
        ++ map (λ a, (a.1.2, transportParams W a.1.1)) (attempts W st entries).
Proof.
  revert st. induction entries as [|entry rest IH]; intros st.
  { exists st. cbn. rewrite !app_nil_r. repeat split; (done || lia). }
  rewrite connect_cons.
  destruct (connectEntry_spec W entry st) as (st1 & Hrun & Hs & Ho & Hh & Hc & Ht).
  rewrite Hrun. cbn [snd attempts]. rewrite Hrun. cbn [snd].
  destruct (IH st1) as (st' & Hrun' & Hs' & Ho' & Hh' & Hc' & Ht').
  exists st'. split; [done|].
  rewrite Hs', Hs, Ho', Ho, Hh', Hh, Hc', Hc, Ht', Ht.
  cbn [omap map fst snd length]. rewrite <- !(assoc_L (++)).
  repeat split; try done; [|lia].
  f_equal. unfold established at 1.
  by destruct (attemptOutcome W st entry).
Qed.

(** The attempts are the descriptors, in order, on consecutive handles. *)
Lemma attempts_entries W st entries :
  map (λ a, a.1.1) (attempts W st entries) = entries.
Proof.
  revert st. induction entries as [|entry rest IH]; intros st; [done|].
  cbn [attempts map fst snd]. by rewrite IH.
Qed.

Lemma attempts_starts W st entries :
  map (λ a, (a.1.2, transportParams W a.1.1)) (attempts W st entries)
  = imap (λ i entry, ((created st + i)%nat, transportParams W entry)) entries.
Proof.
  revert st. induction entries as [|entry rest IH]; intros st; [done|].
  cbn [attempts map imap fst snd]. f_equal; [f_equal; lia|].
  rewrite IH.
  destruct (connectEntry_spec W entry st) as (st1 & Hrun & _ & _ & _ & Hc & _).
  rewrite Hrun. cbn [snd]. rewrite Hc.
  apply imap_ext. intros i x _. simpl. f_equal. lia.
Qed.

Lemma flat_map_established l :
  flat_map server_tools (omap established l) = flat_map catalogOf l.
Proof.
  induction l as [|[[entry h] [e|result]] l IH]; simpl; [done | done |].
  by f_equal.
Qed.

(** C3: [connect] never raises.  Whatever the outside world answers, it
    returns normally; it starts one transport per descriptor, in the order
    of the descriptors and on consecutive handles, so a failure never
    stops the later attempts; the servers it adds are exactly those of the
    attempts whose start and discovery both succeeded, a failed attempt
    (a discovery failure after a successful start included) adding none.
    Over three descriptors the second of which fails discovery, exactly
    the first and the third end up connected. *)
Theorem connect_never_raises W entries st :
  let st' := snd (connect W entries st) in
  fst (connect W entries st) = inr tt
  ∧ omap startOf (trace st')
    = omap startOf (trace st)
      ++ imap (λ i entry, ((created st + i)%nat, transportParams W entry))
           entries
  ∧ map (λ a, a.1.1) (attempts W st entries) = entries
  ∧ servers st' = servers st ++ omap established (attempts W st entries)
  ∧ map snd (attempts secondDiscoveryFails (newManager [] []) threeEntries)
    = [inr [rawTool "search_issues"];
       inl (External "discovery failed");
       inr [rawTool "search_messages"]]
  ∧ servers (snd (connect secondDiscoveryFails threeEntries (newManager [] [])))
    = [connectedServer (entryNamed "github") 0%nat [rawTool "search_issues"];
       connectedServer (entryNamed "slack") 2%nat [rawTool "search_messages"]].
Proof.
  destruct (connect_spec W entries st) as (st1 & Hrun & Hs & _ & _ & _ & Ht).
  cbn zeta. rewrite Hrun. cbn [fst snd].
  split; [done|]. split; [|split; [|split; [done|]]].
  - by rewrite Ht, attempts_starts.
  - apply attempts_entries.
  - split; vm_compute; reflexivity.
Qed.

(** ** getAllTools *)

(** C7: [getAllTools] is pure, and after [connect] it returns, after the
    tools already there, the catalogs of the servers connected by the
    call, in connection order, each in its discovery order; for a new
    manager these are all the tools.  Connecting A (two tools) then B
    (one tool) gives [A.tool1; A.tool2; B.tool1]. *)
Theorem getAllTools_after_connect W entries st orgs objects :
  let st' := snd (connect W entries st) in
  let all := flat_map server_tools (servers st)
             ++ flat_map catalogOf (attempts W st entries) in
  getAllTools st' = (inr all, st')
  ∧ (first ← getAllTools; second ← getAllTools; mret (first, second)) st'
    = (inr (all, all), st')
  ∧ fst (getAllTools (snd (connect W entries (newManager orgs objects))))
    = inr (flat_map catalogOf (attempts W (newManager orgs objects) entries))
  ∧ fst (getAllTools
           (snd (connect twoThenOne [entryNamed "A"; entryNamed "B"]
                   (newManager [] []))))
    = inr (map (toMCPTool (entryNamed "A")) [rawTool "tool1"; rawTool "tool2"]
           ++ map (toMCPTool (entryNamed "B")) [rawTool "tool1"]).
Proof.
  assert (∀ st0, getAllTools (snd (connect W entries st0))
                 = (inr (flat_map server_tools (servers st0)
                         ++ flat_map catalogOf (attempts W st0 entries)),
                    snd (connect W entries st0))) as H.
  { intros st0.
    destruct (connect_spec W entries st0) as (st1 & Hrun & Hs & _).
    rewrite Hrun. unfold getAllTools. unfold_M.
    by rewrite Hs, flat_map_app, flat_map_established. }
  cbn zeta. split; [apply H|split; [|split]].
  - unfold mbind, M_bind. rewrite H. by rewrite H.
  - by rewrite H.
  - vm_compute. reflexivity.
Qed.

(** ** disconnect *)

Lemma closeAll_spec W l sv orgs hp cr tr :
  for_each l
    (λ server,
      try_catch (transportClose W (server_transport server)) (λ _, mret tt))
    {| servers := sv; githubOrgs := orgs; heap := hp; created := cr;
       trace := tr |}
  = (inr tt,
     {| servers := sv; githubOrgs := orgs; heap := hp; created := cr;
        trace := tr ++ map (λ s, EvClose (server_transport s)) l |}).
Proof.
  revert tr. induction l as [|s l IH]; intros tr.
  { cbn. by rewrite app_nil_r. }
  cbn [for_each map]. unfold_M. unfold set_trace. cbn -[app].
  destruct (closeOutcome W _); unfold throw; cbn -[app];
    rewrite IH, <- (assoc_L (++)); done.
Qed.

(** C8: [disconnect] never raises; it asks every live transport to close,
    in order and whatever the earlier closes answered, and leaves no live
    connection; a second [disconnect] does nothing at all, and
    [getAllTools] then returns the empty sequence. *)
Theorem disconnect_best_effort W st :
  let st' := snd (disconnect W st) in
  fst (disconnect W st) = inr tt
  ∧ trace st' = trace st ++ map (λ s, EvClose (server_transport s)) (servers st)
  ∧ servers st' = []
  ∧ githubOrgs st' = githubOrgs st ∧ heap st' = heap st
  ∧ disconnect W st' = (inr tt, st')
  ∧ getAllTools st' = (inr [], st').
Proof.
  destruct st as [sv orgs hp cr tr].
  unfold disconnect. unfold mbind, M_bind, get. cbn [servers].
  rewrite closeAll_spec. unfold modify, set_servers. cbn.
  repeat split.
Qed.

(** ** callTool *)

Lemma parseName_no_separator name :
  Str.includes "__" name = false → parseName name = None.
Proof.
  unfold Str.includes, parseName. intros H%bool_decide_eq_false.
  rewrite bool_decide_eq_true_2; [done|].
  destruct (decide (Str.indexOf "__" name = -1)); [done | by destruct H].
Qed.

Lemma find_server_none (serverName : string) (l : list ConnectedServer) :
  (∀ s, s ∈ l → server_name s ≠ serverName) →
  List.find (λ s, bool_decide (server_name s = serverName)) l = None.
Proof.
  induction l as [|s l IH]; intros H; [done|]. simpl.
  rewrite bool_decide_eq_false_2 by (apply H; left).
  apply IH. intros s' Hs'. apply H. by right.
Qed.

(** C5: a name without the separator makes [callTool] fail with
    [InvalidToolName], and a name whose server part is the name of no
    connected server makes it fail with [UnknownServer]; in both cases the
    state, hence the trace of requests, is the one before the call: no
    remote invocation was made. *)
Theorem callTool_rejects_unroutable_names W name args st :
  (Str.includes "__" name = false →
   callTool W name args st = (inl (InvalidToolName name), st))
  ∧ (∀ serverName toolName,
       parseName name = Some (serverName, toolName) →
       (∀ s, s ∈ servers st → server_name s ≠ serverName) →
       callTool W name args st = (inl (UnknownServer serverName), st)).
Proof.
  split.
  - intros H%parseName_no_separator. unfold callTool. by rewrite H.
  - intros serverName toolName Hp Hs. unfold callTool. rewrite Hp.
    unfold_M. by rewrite (find_server_none _ _ Hs).
Qed.

Lemma callTool_rejects_unroutable_names_witness :
  callTool (scriptedWorld [] (inr VNull)) "search_issues" 0%nat
    (connectedState [] "bug")
  = (inl (InvalidToolName "search_issues"), connectedState [] "bug")
  ∧ callTool (scriptedWorld [] (inr VNull)) "slack__search_messages" 0%nat
      (connectedState [] "bug")
    = (inl (UnknownServer "slack"), connectedState [] "bug").
Proof.
  split.
  - apply (callTool_rejects_unroutable_names
             (scriptedWorld [] (inr VNull)) "search_issues" 0%nat
             (connectedState [] "bug")).
    reflexivity.
  - apply (callTool_rejects_unroutable_names
             (scriptedWorld [] (inr VNull)) "slack__search_messages" 0%nat
             (connectedState [] "bug")) with (toolName := "search_messages").
    + reflexivity.
    + intros s Hs. apply list_elem_of_In in Hs. simpl in Hs.
      destruct Hs as [<-|[<-|[]]]; discriminate.
Defined.

(** C9: [callTool] is a frame for the manager and for the caller: the
    connection list and the configured organizations are the same after
    the call, whatever its result; every object that existed before, the
    caller's arguments object among them, has the content it had; and the
    heap is either untouched or extended by one new object, the copy of
    the caller's arguments with [q] replaced. *)
Theorem callTool_frame W name args st :
  let st' := snd (callTool W name args st) in
  servers st' = servers st
  ∧ githubOrgs st' = githubOrgs st
  ∧ readObj (heap st') args = readObj (heap st) args
  ∧ (∀ l o, heap st !! l = Some o → heap st' !! l = Some o)
  ∧ (heap st' = heap st
     ∨ ∃ q, heap st' = heap st ++ [<["q" := VStr q]> (readObj (heap st) args)]).
Proof.
  unfold callTool.
  destruct (parseName name) as [[serverName toolName]|];
    [|by repeat split; auto].
  unfold_M.
  destruct (List.find _ _) as [server|]; [|by repeat split; auto].
  destruct (_ && _); unfold_M; [|by repeat split; auto].
  unfold injectOrgs. unfold_M.
  destruct (readObj (heap st) args !! "q") as [v|] eqn:Hq;
    [|by cbn; repeat split; auto].
  destruct (truthy (Some v)); [|by cbn; repeat split; auto].
  destruct (qIncludes "org:" v) as [e|[|]]; cbn -[app];
    [by repeat split; auto..|].
  split; [done|]. split; [done|]. split; [|split].
  - unfold readObj in *. destruct (heap st !! args) as [a|] eqn:Ha.
    + by rewrite (lookup_app_l_Some _ _ _ _ Ha).
    + simpl in Hq. by rewrite lookup_empty in Hq.
  - intros l o Hl. by apply lookup_app_l_Some.
  - right. by eexists.
Qed.

Lemma callTool_frame_witness :
  heap (snd (callTool (scriptedWorld [] (inr VNull)) "github__search_issues"
               0%nat (connectedState ["acme"; "west"] "bug"))) !! 0%nat
  = Some {["q" := VStr "bug"]}.
Proof.
  apply (callTool_frame (scriptedWorld [] (inr VNull)) "github__search_issues"
           0%nat (connectedState ["acme"; "west"] "bug")).
  reflexivity.
Defined.

(** C2, as stated, fails: with the issue tracker connected, [callTool] on
    the mutating tool ["createJiraIssue"] does not fail; it invokes the
    remote tool and returns what the server answered. *)
Lemma callTool_invokes_mutating_issue_tracker_tool :
  ¬ (∀ W st args rawName server,
       List.find (λ s, bool_decide (server_name s = issueTracker)) (servers st)
       = Some server →
       readTypeOperation rawName = false →
       (∃ e, fst (callTool W (qualifiedName issueTracker rawName) args st) = inl e)
       ∧ omap remoteCallOf
           (trace (snd (callTool W (qualifiedName issueTracker rawName) args st)))
         = omap remoteCallOf (trace st)).
Proof.
  intros H.
  destruct (H (scriptedWorld [] (inr (VStr "created")))
              (connectedState [] "bug") 0%nat "createJiraIssue" _
              eq_refl eq_refl) as [[e He] _].
  vm_compute in He. discriminate He.
Qed.

(** C2 (amended): [callTool] applies no write-scope policy.  Whenever the
    issue tracker is connected, a call to any of its tools, mutating or
    not, is forwarded: the remote tool is invoked once, under its raw name
    and with the caller's arguments object, and the call returns or fails
    as the server answers.  [callTool] never fails with ToolNotPermitted. *)
Theorem callTool_forwards_issue_tracker_calls W rawName args st server :
  List.find (λ s, bool_decide (server_name s = issueTracker)) (servers st)
  = Some server →
  let a := readObj (heap st) args in
  let st' :=
    set_trace (λ t, t ++ [EvDebug (MsgCalling issueTracker rawName a);
                          EvCallTool (server_client server) rawName args a])
      st in
  callTool W (qualifiedName issueTracker rawName) args st
  = (callToolOutcome W (trace st'), st').
Proof.
  intros Hfind. unfold callTool.
  rewrite parseName_qualifiedName by reflexivity.
  unfold_M. unfold issueTracker in *. rewrite Hfind. cbn -[app].
  rewrite (bool_decide_eq_false_2 ("jira" = "github")) by done.
  unfold_M. unfold set_trace. cbn -[app].
  by rewrite <- !(assoc_L (++)).
Qed.

Lemma callTool_forwards_issue_tracker_calls_witness :
  callTool (scriptedWorld [] (inr (VStr "created"))) "jira__createJiraIssue"
    0%nat (connectedState [] "bug")
  = (inr (VStr "created"),
     set_trace
       (λ t, t ++ [EvDebug (MsgCalling "jira" "createJiraIssue"
                              {["q" := VStr "bug"]});
                   EvCallTool 1%nat "createJiraIssue" 0%nat
                     {["q" := VStr "bug"]}])
       (connectedState [] "bug")).
Proof.
  apply (callTool_forwards_issue_tracker_calls
           (scriptedWorld [] (inr (VStr "created"))) "createJiraIssue" 0%nat
           (connectedState [] "bug")
           (connectedServer (entryNamed "jira") 1%nat
              [rawTool "createJiraIssue"])).
  reflexivity.
Defined.

(** C4, as stated, fails: an empty query lacks a scope qualifier, and with
    organizations configured it is forwarded as it is, for the test
    [q && ...] skips the rewrite of an empty string. *)
Lemma empty_query_is_forwarded_unscoped :
  ¬ (∀ W args st server a q,
       List.find (λ s, bool_decide (server_name s = "github")) (servers st)
       = Some server →
       githubOrgs st ≠ [] →
       heap st !! args = Some a →
       a !! "q" = Some (VStr q) →
       Str.includes "org:" q = false →
       forwardedQuery
         (trace (snd (callTool W "github__search_issues" args st)))
       = Some (VStr (Str.join " " (map (λ o, "org:" +:+ o) (githubOrgs st))
                     +:+ " " +:+ q))).
Proof.
  intros H.
  specialize (H (scriptedWorld [] (inr VNull)) 0%nat
                (connectedState ["acme"; "west"] "") _ _ ""
                eq_refl ltac:(done) eq_refl eq_refl eq_refl).
  vm_compute in H. discriminate H.
Qed.

(** C4 (amended): when [callTool] resolves to the tool [search_issues] of
    the connected [github] server, the configured organization list is
    not empty and the argument [q] is a non-empty string, exactly one
    remote call is made, to [search_issues], and its result is returned.
    If [q] contains no ["org:"], the arguments sent are the caller's with
    [q] replaced by the original query prefixed with one ["org:<name>"]
    per configured organization, in order, separated by spaces; if it does,
    they are the caller's, unchanged.  With the scopes [acme] and [west],
    ["bug"] becomes ["org:acme org:west bug"] and ["org:acme bug"] passes
    through. *)
Theorem callTool_scopes_github_search W args st server a q :
  List.find (λ s, bool_decide (server_name s = "github")) (servers st)
  = Some server →
  githubOrgs st ≠ [] →
  heap st !! args = Some a →
  a !! "q" = Some (VStr q) →
  q ≠ "" →
  let r := callTool W "github__search_issues" args st in
  let scoped :=
    Str.join " " (map (λ o, "org:" +:+ o) (githubOrgs st)) +:+ " " +:+ q in
  let sent := if Str.includes "org:" q then a else <["q" := VStr scoped]> a in
  omap remoteCallOf (trace (snd r))
  = omap remoteCallOf (trace st) ++ [(server_client server, "search_issues", sent)]
  ∧ fst r = callToolOutcome W (trace (snd r))
  ∧ forwardedQuery (trace (snd r))
    = Some (VStr (if Str.includes "org:" q then q else scoped))
  ∧ forwardedQuery
      (trace (snd (callTool (scriptedWorld [] (inr VNull))
                     "github__search_issues" 0%nat
                     (connectedState ["acme"; "west"] "bug"))))
    = Some (VStr "org:acme org:west bug")
  ∧ forwardedQuery
      (trace (snd (callTool (scriptedWorld [] (inr VNull))
                     "github__search_issues" 0%nat
                     (connectedState ["acme"; "west"] "org:acme bug"))))
    = Some (VStr "org:acme bug").
Proof.
  intros Hfind Horgs Ha Hq Hne. cbn zeta.
  assert (readObj (heap st) args = a) as Hr by (unfold readObj; by rewrite Ha).
  assert (∀ o, readObj (heap st ++ [o]) (length (heap st)) = o) as Hnew.
  { intros o. unfold readObj.
    by rewrite lookup_app_r, Nat.sub_diag by done. }
  split; [|split; [|split; [|split; vm_compute; reflexivity]]].
  all: unfold callTool;
    change (parseName "github__search_issues")
      with (Some ("github", "search_issues"));
    unfold_M; rewrite Hfind; cbn -[app];
    rewrite !bool_decide_eq_true_2 by done;
    rewrite bool_decide_eq_true_2
      by (destruct (githubOrgs st); [done|simpl; lia]);
    cbn -[app]; unfold injectOrgs; unfold_M; rewrite !Hr, Hq; cbn -[app];
    rewrite bool_decide_eq_true_2 by done; unfold_M;
    destruct (Str.includes "org:" q) eqn:Hinc; cbn -[app];
    rewrite ?Hr, ?Hnew; try done.
  - rewrite !omap_app. cbn. by rewrite app_nil_r.
  - rewrite !omap_app. cbn. by rewrite app_nil_r.
  - unfold forwardedQuery. rewrite !omap_app. cbn.
    by rewrite app_nil_r, last_snoc.
  - unfold forwardedQuery. rewrite !omap_app. cbn.
    by rewrite app_nil_r, last_snoc, lookup_insert_eq.
Qed.

Lemma callTool_scopes_github_search_witness :
  forwardedQuery
    (trace (snd (callTool (scriptedWorld [] (inr VNull))
                   "github__search_issues" 0%nat
                   (connectedState ["acme"] "stale review"))))
  = Some (VStr "org:acme stale review").
Proof.
  pose proof (callTool_scopes_github_search (scriptedWorld [] (inr VNull))
                0%nat (connectedState ["acme"] "stale review")
                (connectedServer (entryNamed "github") 0%nat
                   [rawTool "search_issues"])
                {["q" := VStr "stale review"]} "stale review"
                eq_refl ltac:(discriminate) eq_refl eq_refl
                ltac:(discriminate)) as H.
  exact (proj1 (proj2 (proj2 H))).
Defined.

(** ** getEnabledServers *)

Lemma readToken_None env name :
  readToken env name = None
  ↔ env !! name = Some ""
    ∨ (env !! name = None ∧ name ∉ objectPrototypeNames).
Proof.
  unfold readToken, envLookup. destruct (env !! name) as [token|].
  - destruct (decide (token = "")) as [->|Hne].
    + rewrite bool_decide_eq_true_2 by done. split; [by left | done].
    + rewrite bool_decide_eq_false_2 by done.
      split; [done | intros [|[? _]]; congruence].
  - case_bool_decide as Hin.
    + split; [done | intros [|[_ ?]]; [congruence|done]].
    + split; [by right | done].
Qed.

(** C10, as stated, fails in both directions.  With [GITHUB_TOKEN] set, to
    the empty string, and GitHub enabled, [getEnabledServers] raises
    although no token variable is unset; and with the token variable
    named [toString], which is not set, it raises nothing: the read finds
    the function that [process.env] inherits and the entry carries it. *)
Lemma getEnabledServers_tests_truthiness :
  ¬ (∀ env config,
       (∃ e, getEnabledServers env config = inl e)
       ↔ (github_enabled (github config) = true
          ∧ env !! github_token_env (github config) = None)
         ∨ (slack_enabled (slack config) = true
            ∧ env !! slack_token_env (slack config) = None))
  ∧ getEnabledServers {["GITHUB_TOKEN" := ""]} (exampleConfig true false false)
    = inl (TokenNotSet "GitHub" "GITHUB_TOKEN")
  ∧ getEnabledServers ∅ (githubOnly "toString")
    = inr [githubEntry (EnvInherited "toString")].
Proof.
  split; [|split; vm_compute; reflexivity].
  intros H.
  destruct (H {["GITHUB_TOKEN" := ""]} (exampleConfig true false false))
    as [Hraise _].
  destruct Hraise as [[_ Hunset]|[Hslack _]].
  - eexists. vm_compute. reflexivity.
  - vm_compute in Hunset. discriminate Hunset.
  - discriminate Hslack.
Qed.

(** C10 (amended): [getEnabledServers] raises exactly when the GitHub or
    the Slack integration is enabled while the read of the environment
    variable named by its [token_env] gives a falsy value: the variable
    is set to the empty string, or it is unset and its name is not one
    that [process.env] inherits from [Object.prototype].  Otherwise it
    returns the enabled integrations in the fixed order github, jira,
    slack, each at most once.  The jira entry reads no token. *)
Theorem getEnabledServers_order_and_failure env config :
  ((∃ e, getEnabledServers env config = inl e)
   ↔ (github_enabled (github config) = true
      ∧ (env !! github_token_env (github config) = Some ""
         ∨ (env !! github_token_env (github config) = None
            ∧ github_token_env (github config) ∉ objectPrototypeNames)))
     ∨ (slack_enabled (slack config) = true
        ∧ (env !! slack_token_env (slack config) = Some ""
           ∨ (env !! slack_token_env (slack config) = None
              ∧ slack_token_env (slack config) ∉ objectPrototypeNames))))
  ∧ (∀ entries,
       getEnabledServers env config = inr entries →
       map entry_name entries
       = (if github_enabled (github config) then ["github"] else [])
         ++ (if jira_enabled (jira config) then ["jira"] else [])
         ++ (if slack_enabled (slack config) then ["slack"] else [])).
Proof.
  rewrite <- !readToken_None.
  unfold getEnabledServers, addGithub, addJira, addSlack.
  destruct (github_enabled (github config)),
    (readToken env (github_token_env (github config))) as [gh|],
    (jira_enabled (jira config)),
    (slack_enabled (slack config)),
    (readToken env (slack_token_env (slack config))) as [sl|];
    cbn; (split; [split|]).
  all: try (intros [e He]; simplify_eq; by auto).
  all: try (intros [[? ?]|[? ?]]; simplify_eq; by eauto).
  all: intros entries Hr; by simplify_eq.
Qed.

Lemma getEnabledServers_order_and_failure_witness :
  map entry_name
    [githubEntry (EnvString "ghp_token");
     jiraEntry "https://mcp.atlassian.com/v1/sse";
     slackEntry (EnvString "xoxb-token")]
  = ["github"; "jira"; "slack"].
Proof.
  apply (getEnabledServers_order_and_failure
           {["GITHUB_TOKEN" := "ghp_token"; "SLACK_BOT_TOKEN" := "xoxb-token"]}
           (exampleConfig true true true)).
  vm_compute. reflexivity.
Defined.

(** ** The agent loop *)

Section AgentFacts.

Variable W : World.
Variable provider : string → list Message → list MCPTool → exn + Response.
Variable systemPrompt fallback : string.

(** A requested call never raises: its failure is the content of its
    result. *)
Lemma executeCall_total req st :
  ∃ r st', executeCall W req st = (inr r, st').
Proof.
  unfold executeCall. destruct (permitted _); [|by eexists _, _].
  unfold try_catch.
  match goal with
  | |- context [match ?body with pair _ _ => _ end] =>
      destruct body as [[e|r] st']
  end; by eexists _, _.
Qed.

Lemma executeCalls_total reqs st :
  ∃ rs st', executeCalls W reqs st = (inr rs, st').
Proof.
  revert st. induction reqs as [|req reqs IH]; intros st; [by eexists _, _|].
  cbn [executeCalls]. unfold mbind, M_bind.
  destruct (executeCall_total req st) as (r & st1 & ->).
  destruct (IH st1) as (rs & st2 & ->). by eexists _, _.
Qed.

Lemma step_awaiting N l st :
  phase l = AWAITING_MODEL →
  step W provider systemPrompt fallback N l st
  = match provider systemPrompt (conversation l)
            (filter (λ t, permitted (tool_name t))
               (flat_map server_tools (servers st))) with
    | inl e => (inl e, st)
    | inr (FinalText text) =>
        (inr {| phase := DONE text;
                conversation := conversation l;
                iterationCounter := iterationCounter l;
                invocations := S (invocations l) |}, st)
    | inr (ToolUseTurn text requests) =>
        (inr {| phase := EXECUTING_TOOLS requests;
                conversation :=
                  conversation l ++ [AssistantMessage text requests];
                iterationCounter := iterationCounter l;
                invocations := S (invocations l) |}, st)
    end.
Proof.
  intros Hl. unfold step. rewrite Hl. unfold getAllTools. unfold_M.
  by destruct (provider _ _ _) as [e|[text|text requests]].
Qed.

Lemma step_executing N l st requests :
  phase l = EXECUTING_TOOLS requests →
  ∃ results st',
    step W provider systemPrompt fallback N l st
    = (inr {| phase :=
                boundCheck fallback N
                  (conversation l ++ map ToolResultMessage results)
                  (S (iterationCounter l));
              conversation := conversation l ++ map ToolResultMessage results;
              iterationCounter := S (iterationCounter l);
              invocations := invocations l |}, st').
Proof.
  intros Hl. unfold step. rewrite Hl. unfold mbind, M_bind.
  destruct (executeCalls_total requests st) as (rs & st' & ->).
  by eexists _, _.
Qed.

Lemma step_terminal N l st :
  (∃ text, phase l = DONE text) ∨ (∃ text, phase l = ABORTED_LIMIT text) →
  step W provider systemPrompt fallback N l st = (inr l, st).
Proof. intros [[text Hl]|[text Hl]]; unfold step; by rewrite Hl. Qed.

(** Two transitions, from waiting for the model back to a bound check,
    when the model asks for tools. *)
Lemma iteration_on_tool_use N l st :
  (∀ conv tools, ∃ text requests,
     provider systemPrompt conv tools = inr (ToolUseTurn text requests)) →
  phase l = AWAITING_MODEL →
  ∃ l2 st2,
    steps W provider systemPrompt fallback N 2 l st = (inr l2, st2)
    ∧ iterationCounter l2 = S (iterationCounter l)
    ∧ invocations l2 = S (invocations l)
    ∧ phase l2 = boundCheck fallback N (conversation l2) (iterationCounter l2).
Proof.
  intros Hp Hl. cbn [steps]. unfold mbind, M_bind.
  rewrite (step_awaiting N l st Hl).
  destruct (Hp (conversation l)
              (filter (λ t, permitted (tool_name t))
                 (flat_map server_tools (servers st))))
    as (text & requests & ->).
  edestruct (step_executing N) as (rs & st2 & ->); [reflexivity|].
  unfold mret, M_ret. by eexists _, _.
Qed.

Lemma steps_add N a b l st :
  steps W provider systemPrompt fallback N (a + b) l st
  = match steps W provider systemPrompt fallback N a l st with
    | (inr l', st') => steps W provider systemPrompt fallback N b l' st'
    | (inl e, st') => (inl e, st')
    end.
Proof.
  revert l st. induction a as [|a IH]; intros l st; [done|].
  cbn [Nat.add steps]. unfold mbind, M_bind.
  destruct (step _ _ _ _ _ _ _) as [[e|l'] st']; [done|apply IH].
Qed.

(** With a model that always asks for tools, [k] more iterations fill the
    bound. *)
Lemma steps_to_limit N k l st :
  (∀ conv tools, ∃ text requests,
     provider systemPrompt conv tools = inr (ToolUseTurn text requests)) →
  phase l
  = boundCheck fallback N (conversation l) (iterationCounter l) →
  (iterationCounter l + k = N)%nat →
  ∃ l' st',
    steps W provider systemPrompt fallback N (2 * k) l st = (inr l', st')
    ∧ phase l'
      = ABORTED_LIMIT (default fallback (lastAssistantText (conversation l')))
    ∧ iterationCounter l' = N
    ∧ invocations l' = (invocations l + k)%nat.
Proof.
  intros Hp. revert l st. induction k as [|k IH]; intros l st Hl Hc.
  { exists l, st. unfold boundCheck in Hl.
    rewrite bool_decide_eq_true_2 in Hl by lia.
    repeat split; [done|lia|lia]. }
  unfold boundCheck in Hl. rewrite bool_decide_eq_false_2 in Hl by lia.
  replace (2 * S k)%nat with (2 + 2 * k)%nat by lia. rewrite steps_add.
  destruct (iteration_on_tool_use N l st Hp Hl)
    as (l2 & st2 & -> & Hc2 & Hi2 & Hph).
  destruct (IH l2 st2 Hph) as (l' & st' & Hrun & ? & ? & ?); [lia|].
  exists l', st'. repeat split; [done|done|done|lia].
Qed.

Lemma step_withinBound N l st l' st' :
  step W provider systemPrompt fallback N l st = (inr l', st') →
  withinBound N l → withinBound N l'.
Proof.
  intros Hstep [Hle Hph]. destruct (phase l) as [|requests|text|text] eqn:Hl.
  - rewrite step_awaiting in Hstep by done.
    destruct (provider _ _ _) as [e|[text|text requests]];
      [done|injection Hstep as <- _; by split..].
  - destruct (step_executing N l st requests Hl) as (rs & st2 & Hrun).
    rewrite Hrun in Hstep. injection Hstep as <- _.
    unfold withinBound, boundCheck. cbn.
    case_bool_decide; split; lia.
  - rewrite step_terminal in Hstep by (left; by eexists).
    injection Hstep as <- _. split; [done|by rewrite Hl].
  - rewrite step_terminal in Hstep by (right; by eexists).
    injection Hstep as <- _. split; [done|by rewrite Hl].
Qed.

Lemma iterationCounter_bounded N fuel userMessage st l st' :
  steps W provider systemPrompt fallback N fuel (initial fallback N userMessage)
    st = (inr l, st') →
  (iterationCounter l ≤ N)%nat.
Proof.
  assert (withinBound N (initial fallback N userMessage)) as Hinit.
  { unfold withinBound, initial, boundCheck. cbn.
    case_bool_decide; split; lia. }
  revert Hinit. generalize (initial fallback N userMessage).
  revert st. induction fuel as [|fuel IH]; intros st l0 Hinv Hrun.
  { injection Hrun as <- _. apply Hinv. }
  cbn [steps] in Hrun. unfold mbind, M_bind in Hrun.
  destruct (step _ _ _ _ _ _ _) as [[e|l1] st1] eqn:Hstep; [done|].
  eapply IH; [|exact Hrun]. by eapply step_withinBound.
Qed.

End AgentFacts.



(** * Further properties of the code *)

(** ** Cutting names *)

Module StrCuts.
Import Str.

Lemma startsWith_app pat s :
  startsWith pat s = true → s = pat +:+ drop (String.length pat) s.
Proof.
  revert s. induction pat as [|a p IH]; intros [|b s] H; simpl in *; try done.
  apply andb_prop in H as [Hab Hp]. apply bool_decide_eq_true in Hab as ->.
  rewrite StrFacts.app_cons. f_equal. by apply IH.
Qed.

Lemma take_drop n s : take n s +:+ drop n s = s.
Proof.
  revert s. induction n as [|n IH]; intros [|a s]; simpl; try done.
  rewrite StrFacts.app_cons. by rewrite IH.
Qed.

Lemma length_take n s :
  (n ≤ String.length s)%nat → String.length (take n s) = n.
Proof.
  revert s. induction n as [|n IH]; intros [|a s] H; simpl in *;
    [done | done | lia | rewrite IH; [done | lia]].
Qed.

Lemma drop_drop n m s : drop n (drop m s) = drop (m + n) s.
Proof.
  revert s. induction m as [|m IH]; intros s; [done|].
  destruct s as [|a s]; simpl; [by destruct n | apply IH].
Qed.

(** Where [search] finds the pattern, the pattern is. *)
Lemma search_Some pat s i :
  search pat s = Some i →
  (i ≤ String.length s)%nat ∧ startsWith pat (drop i s) = true.
Proof.
  revert i. induction s as [|a s IH]; intros i; rewrite StrFacts.search_unfold.
  - destruct (startsWith pat "") eqn:Hp; [|done]. intros [= <-]. by split.
  - destruct (startsWith pat (String a s)) eqn:Hp.
    + intros [= <-]. split; [simpl; lia | done].
    + destruct (search pat s) as [j|]; [|done]. intros [= <-].
      destruct (IH j eq_refl) as [Hj Hs]. split; [simpl; lia | done].
Qed.

Lemma startsWith_take pat n s :
  startsWith pat (take n s) = true → startsWith pat s = true.
Proof.
  revert n s. induction pat as [|a p IH]; intros n s; [done|].
  destruct n as [|n], s as [|b s]; simpl; try done.
  intros [Hab Hp]%andb_prop. rewrite Hab. simpl. by eapply IH.
Qed.

(** It is the first occurrence: there is none before it. *)
Lemma search_take pat s i :
  pat ≠ "" → search pat s = Some i → search pat (take i s) = None.
Proof.
  intros Hpat. revert i. induction s as [|a s IH]; intros i.
  - rewrite StrFacts.search_unfold. destruct (startsWith pat ""); [|done].
    intros [= <-]. simpl. by destruct pat.
  - rewrite StrFacts.search_unfold.
    destruct (startsWith pat (String a s)) eqn:Hp.
    + intros [= <-]. simpl. by destruct pat.
    + destruct (search pat s) as [j|] eqn:Hs; [|done]. intros [= <-].
      cbn [take]. rewrite StrFacts.search_unfold.
      destruct (startsWith pat (String a (take j s))) eqn:Hp'.
      { apply (startsWith_take pat (S j) (String a s)) in Hp'. congruence. }
      by rewrite (IH j eq_refl).
Qed.

End StrCuts.

(** X1: what [callTool] cuts a name into loses nothing: when a name is cut
    into a server name and a tool name, the name is the server name, the
    separator and the tool name, and the server name holds no separator. *)
Theorem parseName_sound name serverName toolName :
  parseName name = Some (serverName, toolName) →
  name = qualifiedName serverName toolName
  ∧ Str.includes "__" serverName = false.
Proof.
  unfold parseName, Str.indexOf.
  destruct (Str.search "__" name) as [i|] eqn:Hs; [|done].
  rewrite bool_decide_eq_false_2 by lia.
  destruct (StrCuts.search_Some _ _ _ Hs) as [Hi Hp].
  replace (Z.of_nat i + 2) with (Z.of_nat (i + 2)) by lia.
  apply StrCuts.startsWith_app in Hp. simpl String.length in Hp.
  rewrite StrCuts.drop_drop in Hp.
  assert (i + 2 ≤ String.length name)%nat as Hi2.
  { rewrite <- (StrCuts.take_drop i name), Hp, !StrFacts.length_app.
    rewrite StrCuts.length_take by done. simpl. lia. }
  rewrite StrFacts.slice_prefix, StrFacts.slice_suffix by lia.
  intros [= <- <-]. split.
  - unfold qualifiedName. rewrite <- Hp. by rewrite StrCuts.take_drop.
  - apply StrFacts.includes_false. by apply StrCuts.search_take.
Qed.

Lemma parseName_sound_witness :
  "github__list__all" = qualifiedName "github" "list__all"
  ∧ Str.includes "__" "github" = false.
Proof.
  apply (parseName_sound "github__list__all" "github" "list__all").
  reflexivity.
Defined.

(** ** Routed calls *)

Lemma injectOrgs_spec args st :
  injectOrgs args st
  = match queryRewrite (githubOrgs st) (readObj (heap st) args) with
    | inl e => (inl e, st)
    | inr None => (inr args, st)
    | inr (Some a') =>
        (inr (length (heap st)), set_heap (λ h, h ++ [a']) st)
    end.
Proof.
  unfold injectOrgs. unfold_M. unfold queryRewrite.
  destruct (readObj (heap st) args !! "q") as [v|]; [|done].
  destruct (truthy (Some v)); [|done].
  by destruct (qIncludes "org:" v) as [e|[|]].
Qed.

(** A call whose name resolves to a connected server either raises in the
    rewrite or is forwarded, on the caller's object or on a new one. *)
Lemma callTool_routed W name args st serverName toolName server :
  parseName name = Some (serverName, toolName) →
  List.find (λ s, bool_decide (server_name s = serverName)) (servers st)
  = Some server →
  callTool W name args st
  = match (if rewriteApplies serverName toolName st
           then queryRewrite (githubOrgs st) (readObj (heap st) args)
           else inr None) with
    | inl e => (inl e, st)
    | inr None => forwardCall W serverName toolName server args st
    | inr (Some a') =>
        forwardCall W serverName toolName server (length (heap st))
          (set_heap (λ h, h ++ [a']) st)
    end.
Proof.
  intros Hp Hf. unfold callTool, rewriteApplies, forwardCall.
  rewrite Hp. unfold_M. rewrite Hf. cbn -[app].
  destruct (_ && _).
  - rewrite injectOrgs_spec.
    destruct (queryRewrite _ _) as [e|[a'|]]; [done|..];
      unfold_M; unfold set_trace, set_heap; cbn -[app];
      by rewrite <- !(assoc_L (++)).
  - unfold_M. unfold set_trace. cbn -[app]. by rewrite <- !(assoc_L (++)).
Qed.

Lemma omap_remoteCallOf_forward tr serverName toolName h ref a :
  omap remoteCallOf
    (tr ++ [EvDebug (MsgCalling serverName toolName a);
            EvCallTool h toolName ref a])
  = omap remoteCallOf tr ++ [(h, toolName, a)].
Proof. by rewrite omap_app. Qed.

(** X2: unless the call is the GitHub search of a manager that holds
    organizations, [callTool] forwards verbatim: one remote call, under
    the raw tool name, carrying the caller's arguments as they are; no
    object is created and the server's answer is the result.  A manager
    built without organizations never rewrites a query. *)
Theorem callTool_forwards_verbatim W name args st serverName toolName server :
  parseName name = Some (serverName, toolName) →
  List.find (λ s, bool_decide (server_name s = serverName)) (servers st)
  = Some server →
  serverName ≠ "github" ∨ toolName ≠ "search_issues" ∨ githubOrgs st = [] →
  let r := callTool W name args st in
  heap (snd r) = heap st
  ∧ omap remoteCallOf (trace (snd r))
    = omap remoteCallOf (trace st)
      ++ [(server_client server, toolName, readObj (heap st) args)]
  ∧ fst r = callToolOutcome W (trace (snd r)).
Proof.
  intros Hp Hf Hguard. cbn zeta.
  rewrite (callTool_routed W name args st serverName toolName server Hp Hf).
  assert (rewriteApplies serverName toolName st = false) as ->.
  { unfold rewriteApplies.
    destruct Hguard as [H|[H| ->]].
    - by rewrite (bool_decide_eq_false_2 _ H).
    - rewrite (bool_decide_eq_false_2 _ H). by rewrite andb_false_r.
    - rewrite (bool_decide_eq_false_2 (0 < length [])%nat) by (simpl; lia).
      by rewrite andb_false_r. }
  unfold forwardCall. cbn -[app].
  by rewrite omap_remoteCallOf_forward.
Qed.

Lemma callTool_forwards_verbatim_witness :
  omap remoteCallOf
    (trace (snd (callTool (scriptedWorld [] (inr VNull))
                   "github__search_issues" 0%nat (connectedState [] "bug"))))
  = [(0%nat, "search_issues", {["q" := VStr "bug"]})].
Proof.
  apply (callTool_forwards_verbatim (scriptedWorld [] (inr VNull))
           "github__search_issues" 0%nat (connectedState [] "bug")
           "github" "search_issues"
           (connectedServer (entryNamed "github") 0%nat
              [rawTool "search_issues"])).
  - reflexivity.
  - reflexivity.
  - right. right. reflexivity.
Defined.

(** X3: in the GitHub search of a manager that holds organizations, a
    query that is a non-zero number, [true] or a plain object makes
    [callTool] raise a type error on [q.includes]; nothing is sent to the
    server and the state is as before the call. *)
Theorem callTool_raises_on_non_string_query W args st server a v :
  List.find (λ s, bool_decide (server_name s = "github")) (servers st)
  = Some server →
  githubOrgs st ≠ [] →
  heap st !! args = Some a →
  a !! "q" = Some v →
  match v with
  | VBool b => b = true
  | VNum r => r ≠ "0"
  | VObj _ => True
  | _ => False
  end →
  callTool W "github__search_issues" args st
  = (inl (TypeError "q.includes is not a function"), st).
Proof.
  intros Hf Horgs Ha Hq Hv.
  rewrite (callTool_routed W "github__search_issues" args st "github"
             "search_issues" server eq_refl Hf).
  assert (rewriteApplies "github" "search_issues" st = true) as ->.
  { unfold rewriteApplies. rewrite !bool_decide_eq_true_2; [done|..|done|done].
    destruct (githubOrgs st); [done|simpl; lia]. }
  assert (readObj (heap st) args = a) as -> by (unfold readObj; by rewrite Ha).
  unfold queryRewrite. rewrite Hq.
  destruct v as [|[|]|r|s|items|fields]; try done; cbn.
  by rewrite bool_decide_eq_true_2.
Qed.

Lemma callTool_raises_on_non_string_query_witness :
  callTool (scriptedWorld [] (inr VNull)) "github__search_issues" 0%nat
    (set_heap (λ _, [ {["q" := VNum "42"]} ]) (connectedState ["acme"] "bug"))
  = (inl (TypeError "q.includes is not a function"),
     set_heap (λ _, [ {["q" := VNum "42"]} ]) (connectedState ["acme"] "bug")).
Proof.
  apply (callTool_raises_on_non_string_query (scriptedWorld [] (inr VNull))
           0%nat
           (set_heap (λ _, [ {["q" := VNum "42"]} ])
              (connectedState ["acme"] "bug"))
           (connectedServer (entryNamed "github") 0%nat
              [rawTool "search_issues"])
           {["q" := VNum "42"]} (VNum "42")).
  - reflexivity.
  - discriminate.
  - reflexivity.
  - reflexivity.
  - discriminate.
Defined.

Lemma orgFilter_scoped orgs tail :
  orgs ≠ [] → Str.includes "org:" (orgFilter orgs +:+ tail) = true.
Proof.
  intros Horgs. destruct orgs as [|o rest]; [done|].
  assert (∃ y, orgFilter (o :: rest) +:+ tail = "org:" +:+ y) as [y ->].
  { unfold orgFilter. cbn [map Str.join].
    destruct (map _ rest) as [|p ps].
    - exists (o +:+ tail). by rewrite StrFacts.app_assoc.
    - eexists. by rewrite !StrFacts.app_assoc. }
  unfold Str.includes, Str.indexOf.
  rewrite StrFacts.search_unfold.
  assert (Str.startsWith "org:" ("org:" +:+ y) = true) as ->
    by (by destruct y).
  by rewrite bool_decide_eq_true_2.
Qed.

Lemma queryRewrite_stable orgs a a' :
  orgs ≠ [] → queryRewrite orgs a = inr (Some a') →
  queryRewrite orgs a' = inr None.
Proof.
  intros Horgs. unfold queryRewrite at 1.
  destruct (a !! "q") as [v|]; [|done].
  destruct (truthy (Some v)); [|done].
  destruct (qIncludes "org:" v) as [e|[|]]; [done..|]. intros [= <-].
  unfold queryRewrite. rewrite lookup_insert_eq.
  cbn [truthy qIncludes]. rewrite bool_decide_eq_true_2.
  - by rewrite orgFilter_scoped.
  - destruct orgs as [|o rest]; [done|]. unfold orgFilter. cbn [map Str.join].
    destruct (map _ rest); intros H; by rewrite ?StrFacts.app_assoc in H.
Qed.

Lemma queryRewrite_error orgs a e :
  queryRewrite orgs a = inl e → e = TypeError "q.includes is not a function".
Proof.
  unfold queryRewrite. destruct (a !! "q") as [v|]; [|done].
  destruct (truthy (Some v)); [|done].
  destruct v; cbn; try (by intros [= <-]); by repeat case_match.
Qed.

Lemma readObj_new h o : readObj (h ++ [o]) (length h) = o.
Proof. unfold readObj. by rewrite lookup_app_r, Nat.sub_diag by done. Qed.

(** X4: the rewrite is stable.  A routed call either raises the type error
    of the rewrite, leaving the state as it was, or sends an object on
    which the same call does not rewrite again: sent a second time, that
    object goes out as it is and no further object is created. *)
Theorem callTool_rewrite_is_stable W name args st serverName toolName server :
  parseName name = Some (serverName, toolName) →
  List.find (λ s, bool_decide (server_name s = serverName)) (servers st)
  = Some server →
  let st1 := snd (callTool W name args st) in
  (∃ what, callTool W name args st = (inl (TypeError what), st))
  ∨ ∃ ref,
      trace st1
      = trace st
        ++ [EvDebug (MsgCalling serverName toolName (readObj (heap st1) ref));
            EvCallTool (server_client server) toolName ref
              (readObj (heap st1) ref)]
      ∧ heap (snd (callTool W name ref st1)) = heap st1
      ∧ omap remoteCallOf (trace (snd (callTool W name ref st1)))
        = omap remoteCallOf (trace st1)
          ++ [(server_client server, toolName, readObj (heap st1) ref)].
Proof.
  intros Hp Hf. cbn zeta.
  rewrite (callTool_routed W name args st serverName toolName server Hp Hf).
  destruct (rewriteApplies serverName toolName st) eqn:Hg.
  - assert (githubOrgs st ≠ []) as Horgs.
    { unfold rewriteApplies in Hg. apply andb_prop in Hg as [_ Hg].
      apply bool_decide_eq_true in Hg. destruct (githubOrgs st); [simpl in Hg; lia|done]. }
    destruct (queryRewrite (githubOrgs st) (readObj (heap st) args))
      as [e|[a'|]] eqn:Hq.
    + left. apply queryRewrite_error in Hq as ->. by eexists.
    + right. exists (length (heap st)). unfold forwardCall. cbn -[app].
      rewrite readObj_new. split; [done|].
      match goal with
      | |- context [callTool W name ?r ?s] =>
          rewrite (callTool_routed W name r s serverName toolName server Hp Hf)
      end.
      change (rewriteApplies serverName toolName _)
        with (rewriteApplies serverName toolName st).
      rewrite Hg. cbn -[app]. rewrite readObj_new.
      rewrite (queryRewrite_stable _ _ _ Horgs Hq).
      unfold forwardCall. cbn -[app]. rewrite readObj_new.
      by rewrite omap_remoteCallOf_forward.
    + right. exists args. unfold forwardCall. cbn -[app]. split; [done|].
      match goal with
      | |- context [callTool W name ?r ?s] =>
          rewrite (callTool_routed W name r s serverName toolName server Hp Hf)
      end.
      change (rewriteApplies serverName toolName _)
        with (rewriteApplies serverName toolName st).
      rewrite Hg. cbn -[app]. rewrite Hq.
      unfold forwardCall. cbn -[app].
      by rewrite omap_remoteCallOf_forward.
  - right. exists args. unfold forwardCall. cbn -[app]. split; [done|].
    match goal with
      | |- context [callTool W name ?r ?s] =>
          rewrite (callTool_routed W name r s serverName toolName server Hp Hf)
      end.
    change (rewriteApplies serverName toolName _)
      with (rewriteApplies serverName toolName st).
    rewrite Hg. unfold forwardCall. cbn -[app].
    by rewrite omap_remoteCallOf_forward.
Qed.

Lemma callTool_rewrite_is_stable_witness :
  let W := scriptedWorld [] (inr VNull) in
  let st := connectedState ["acme"] "bug" in
  let st1 := snd (callTool W "github__search_issues" 0%nat st) in
  (∃ what,
     callTool W "github__search_issues" 0%nat st = (inl (TypeError what), st))
  ∨ ∃ ref,
      trace st1
      = trace st
        ++ [EvDebug (MsgCalling "github" "search_issues"
                       (readObj (heap st1) ref));
            EvCallTool 0%nat "search_issues" ref (readObj (heap st1) ref)]
      ∧ heap (snd (callTool W "github__search_issues" ref st1)) = heap st1
      ∧ omap remoteCallOf
          (trace (snd (callTool W "github__search_issues" ref st1)))
        = omap remoteCallOf (trace st1)
          ++ [(0%nat, "search_issues", readObj (heap st1) ref)].
Proof.
  exact (callTool_rewrite_is_stable (scriptedWorld [] (inr VNull))
           "github__search_issues" 0%nat (connectedState ["acme"] "bug")
           "github" "search_issues"
           (connectedServer (entryNamed "github") 0%nat
              [rawTool "search_issues"]) eq_refl eq_refl).
Defined.

(** ** connect and disconnect together *)

Lemma connectEntry_closes W entry st :
  omap closeOf (trace (snd (connectEntry W entry st)))
  = omap closeOf (trace st).
Proof.
  unfold connectEntry. unfold_M.
  destruct (startOutcome W _) as [e|]; unfold throw; cbn -[app].
  { rewrite !omap_app. cbn. by rewrite !app_nil_r. }
  destruct (listToolsOutcome W _) as [e|result]; cbn -[app];
    rewrite !omap_app; cbn; by rewrite !app_nil_r.
Qed.

Lemma connect_closes W entries st :
  omap closeOf (trace (snd (connect W entries st))) = omap closeOf (trace st).
Proof.
  revert st. induction entries as [|entry rest IH]; intros st; [done|].
  by rewrite connect_cons, IH, connectEntry_closes.
Qed.

Lemma attempts_handles W st entries :
  map (λ a, a.1.2) (attempts W st entries)
  = seq (created st) (length entries).
Proof.
  revert st. induction entries as [|entry rest IH]; intros st; [done|].
  cbn [attempts map length seq fst snd]. f_equal. rewrite IH.
  destruct (connectEntry_spec W entry st) as (st1 & Hrun & _ & _ & _ & Hc & _).
  rewrite Hrun. cbn [snd]. by rewrite Hc.
Qed.

Lemma disconnect_trace W st :
  trace (snd (disconnect W st))
  = trace st ++ map (λ s, EvClose (server_transport s)) (servers st).
Proof.
  destruct st as [sv orgs hp cr tr].
  unfold disconnect. unfold mbind, M_bind, get. cbn [servers].
  by rewrite closeAll_spec.
Qed.

Lemma starts_of_closes (l : list ConnectedServer) :
  omap startOf (map (λ s, EvClose (server_transport s)) l) = [].
Proof. by induction l. Qed.

Lemma starts_handles W n entries :
  map fst (imap (λ i entry, ((n + i)%nat, transportParams W entry)) entries)
  = seq n (length entries).
Proof.
  revert n. induction entries as [|entry rest IH]; intros n; [done|].
  rewrite imap_cons. cbn [map fst length seq]. f_equal; [lia|].
  rewrite <- (IH (S n)). f_equal. apply imap_ext. intros i x _. simpl.
  f_equal. lia.
Qed.

Lemma closes_of_established l :
  omap closeOf
    (map (λ s, EvClose (server_transport s)) (omap established l))
  = omap (λ a, server_transport <$> established a) l.
Proof.
  induction l as [|[[entry h] [e|result]] l IH]; simpl; [done|done|].
  by f_equal.
Qed.

(** X5: after [connect] and then [disconnect] on a new manager, the
    transports asked to close are exactly those of the attempts whose
    start and discovery succeeded, in connection order.  A transport that
    was started but whose discovery failed is never closed. *)
Theorem disconnect_closes_connected_only W entries orgs objects :
  let st0 := newManager orgs objects in
  let st2 := snd (disconnect W (snd (connect W entries st0))) in
  omap closeOf (trace st2)
  = omap (λ a, server_transport <$> established a) (attempts W st0 entries)
  ∧ (∀ entry h e,
       (entry, h, inl e) ∈ attempts W st0 entries →
       h ∈ map fst (omap startOf (trace st2))
       ∧ h ∉ omap closeOf (trace st2)).
Proof.
  cbn zeta. set (st0 := newManager orgs objects).
  destruct (connect_spec W entries st0) as (st1 & Hrun & Hs & _ & _ & _ & Ht).
  pose proof (connect_closes W entries st0) as Hc. rewrite Hrun in *. cbn [snd] in *.
  pose proof (disconnect_trace W st1) as Htr.
  assert (omap closeOf (trace (snd (disconnect W st1)))
          = omap (λ a, server_transport <$> established a)
              (attempts W st0 entries)) as Hcl.
  { rewrite Htr, omap_app, Hc, Hs. apply closes_of_established. }
  split; [exact Hcl|].
  intros entry h e Hin. split.
  - rewrite Htr, omap_app, Ht, attempts_starts, starts_of_closes, app_nil_r.
    change (omap startOf (trace st0)) with (@nil (handle * TransportParams)).
    rewrite app_nil_l, starts_handles.
    assert (h ∈ map (λ a, a.1.2) (attempts W st0 entries)) as Hh.
    { apply list_elem_of_In, in_map_iff. exists (entry, h, inl e).
      split; [done|]. by apply list_elem_of_In. }
    by rewrite attempts_handles in Hh.
  - rewrite Hcl. clear Hcl Htr Hc Ht Hs Hrun.
    pose proof (attempts_handles W st0 entries) as Hh.
    assert (NoDup (map (λ a, a.1.2) (attempts W st0 entries))) as Hnd.
    { rewrite Hh. apply NoDup_ListNoDup, seq_NoDup. }
    revert Hin Hnd. generalize (attempts W st0 entries). clear.
    induction l as [|[[entry' h'] o] l IH]; intros Hin Hnd.
    { by apply elem_of_nil in Hin. }
    cbn [map fst snd] in Hnd. apply NoDup_cons in Hnd as [Hh' Hnd].
    apply elem_of_cons in Hin as [Heq|Hin].
    + injection Heq as <- <- <-. cbn.
      intros Hbad. apply Hh'. clear -Hbad.
      induction l as [|[[e1 h1] [x|r]] l IH]; cbn in *.
      * by apply elem_of_nil in Hbad.
      * right. by apply IH.
      * apply elem_of_cons in Hbad as [->|Hbad]; [by left|right; by apply IH].
    + destruct o as [x|r]; cbn; [by apply IH|].
      intros [->|Hbad]%elem_of_cons; [|by apply IH in Hbad].
      apply Hh'. apply list_elem_of_In, in_map_iff.
      exists (entry, h', inl e). split; [done|by apply list_elem_of_In].
Qed.

Lemma disconnect_closes_connected_only_witness :
  1%nat ∈ map fst
            (omap startOf
               (trace (snd (disconnect secondDiscoveryFails
                              (snd (connect secondDiscoveryFails threeEntries
                                      (newManager [] [])))))))
  ∧ 1%nat ∉ omap closeOf
              (trace (snd (disconnect secondDiscoveryFails
                             (snd (connect secondDiscoveryFails threeEntries
                                     (newManager [] [])))))).
Proof.
  apply (proj2 (disconnect_closes_connected_only secondDiscoveryFails
                  threeEntries [] [])
           (entryNamed "jira") 1%nat (External "discovery failed")).
  apply list_elem_of_In. vm_compute. right. left. reflexivity.
Defined.

(** ** From discovery to routing *)

Lemma find_server_unique (l : list ConnectedServer) s :
  NoDup (map server_name l) → s ∈ l →
  List.find (λ s', bool_decide (server_name s' = server_name s)) l = Some s.
Proof.
  induction l as [|s' l IH]; intros Hnd Hin; [by apply elem_of_nil in Hin|].
  cbn [map] in Hnd. apply NoDup_cons in Hnd as [Hs' Hnd]. cbn [List.find].
  apply elem_of_cons in Hin as [->|Hin].
  - by rewrite bool_decide_eq_true_2.
  - rewrite bool_decide_eq_false_2; [by apply IH|].
    intros Heq. apply Hs'. rewrite Heq.
    apply list_elem_of_In, in_map. by apply list_elem_of_In.
Qed.

Lemma established_names l :
  NoDup (map (λ a : ServerEntry * handle * (exn + list RawTool),
                entry_name a.1.1) l) →
  NoDup (map server_name (omap established l)).
Proof.
  induction l as [|[[entry h] [e|result]] l IH]; cbn [map fst snd];
    intros Hnd; [constructor|..]; apply NoDup_cons in Hnd as [Hh Hnd];
    cbn; [by apply IH|].
  apply NoDup_cons. split; [|by apply IH].
  intros Hin. apply Hh. clear -Hin.
  induction l as [|[[e1 h1] [x|r]] l IH]; cbn in *.
  - by apply elem_of_nil in Hin.
  - right. by apply IH.
  - apply elem_of_cons in Hin as [->|Hin]; [by left|right; by apply IH].
Qed.

(** X6: every tool that [connect] discovers can be called.  On a new
    manager connected to descriptors with distinct names, none holding the
    separator or ending in an underscore, the qualified name of a
    discovered tool is listed by [getAllTools], and [callTool] on it
    reaches the transport that discovered the tool, under the tool's raw
    name, unless the GitHub rewrite raises its type error. *)
Theorem discovered_tools_are_routable
    W entries orgs objects args entry h result t :
  NoDup (map entry_name entries) →
  Forall (λ e, Str.includes "__" (entry_name e) = false
               ∧ Str.endsWithChar "_" (entry_name e) = false) entries →
  (entry, h, inr result) ∈ attempts W (newManager orgs objects) entries →
  t ∈ result →
  let st1 := snd (connect W entries (newManager orgs objects)) in
  let r := callTool W (tool_name (toMCPTool entry t)) args st1 in
  (∃ tools, fst (getAllTools st1) = inr tools ∧ toMCPTool entry t ∈ tools)
  ∧ ((∃ what, r = (inl (TypeError what), st1))
     ∨ ∃ a,
         omap remoteCallOf (trace (snd r))
         = omap remoteCallOf (trace st1) ++ [(h, raw_name t, a)]
         ∧ fst r = callToolOutcome W (trace (snd r))).
Proof.
  intros Hnd Hnames Hin Ht. cbn zeta.
  set (st0 := newManager orgs objects) in *.
  destruct (connect_spec W entries st0) as (st1 & Hrun & Hs & _).
  rewrite Hrun. cbn [snd]. change (servers st0) with (@nil ConnectedServer) in Hs.
  rewrite app_nil_l in Hs.
  assert (connectedServer entry h result ∈ servers st1) as Hsrv.
  { rewrite Hs. apply list_elem_of_omap. by exists (entry, h, inr result). }
  assert (entry ∈ entries) as He.
  { rewrite <- (attempts_entries W st0 entries).
    apply list_elem_of_In, in_map_iff. exists (entry, h, inr result).
    split; [done|by apply list_elem_of_In]. }
  split.
  - eexists. split; [reflexivity|]. apply list_elem_of_In, in_flat_map.
    exists (connectedServer entry h result).
    split; [by apply list_elem_of_In|]. cbn. apply in_map.
    by apply list_elem_of_In.
  - rewrite Forall_forall in Hnames. destruct (Hnames entry He) as [Hsep Hend].
    assert (NoDup (map server_name (servers st1))) as Hnd1.
    { rewrite Hs. apply established_names.
      replace (map (λ a : ServerEntry * handle * (exn + list RawTool),
                      entry_name a.1.1) (attempts W st0 entries))
        with (map entry_name entries); [done|].
      rewrite <- (attempts_entries W st0 entries) at 1. by rewrite map_map. }
    pose proof (find_server_unique _ _ Hnd1 Hsrv) as Hfind.
    change (tool_name (toMCPTool entry t))
      with (qualifiedName (entry_name entry) (raw_name t)).
    rewrite (callTool_routed W _ args st1 (entry_name entry) (raw_name t)
               (connectedServer entry h result)
               (parseName_qualifiedName _ _ Hsep Hend) Hfind).
    destruct (if rewriteApplies _ _ _ then _ else _) as [e|[a'|]] eqn:Hq.
    + left. destruct (rewriteApplies _ _ _); [|done].
      apply queryRewrite_error in Hq as ->. by eexists.
    + right. eexists. unfold forwardCall. cbn -[app].
      by rewrite omap_remoteCallOf_forward.
    + right. eexists. unfold forwardCall. cbn -[app].
      by rewrite omap_remoteCallOf_forward.
Qed.

Lemma discovered_tools_are_routable_witness :
  omap remoteCallOf
    (trace (snd (callTool twoThenOne "B__tool1" 0%nat
                   (snd (connect twoThenOne [entryNamed "A"; entryNamed "B"]
                           (newManager [] [ ∅ ]))))))
  = [(1%nat, "tool1", ∅)].
Proof.
  destruct (proj2 (discovered_tools_are_routable twoThenOne
                     [entryNamed "A"; entryNamed "B"] [] [ ∅ ] 0%nat
                     (entryNamed "B") 1%nat [rawTool "tool1"] (rawTool "tool1")
                     ltac:(apply NoDup_ListNoDup; vm_compute;
                           repeat constructor; simpl; intuition discriminate)
                     ltac:(repeat constructor)
                     ltac:(apply list_elem_of_In; vm_compute; right; left;
                           reflexivity)
                     ltac:(apply list_elem_of_In; left; reflexivity)))
    as [[what Hraise]|[a [Hcalls _]]].
  - vm_compute in Hraise. discriminate Hraise.
  - vm_compute. reflexivity.
Defined.

(** ** The registry and the manager together *)

Lemma getEnabledServers_cases env config entries :
  getEnabledServers env config = inr entries →
  entries
  = (if github_enabled (github config)
     then option_list
            (githubEntry <$> readToken env (github_token_env (github config)))
     else [])
    ++ (if jira_enabled (jira config)
        then [jiraEntry (jira_url (jira config))] else [])
    ++ (if slack_enabled (slack config)
        then option_list
               (slackEntry <$> readToken env (slack_token_env (slack config)))
        else [])
  ∧ (github_enabled (github config) = true →
     is_Some (readToken env (github_token_env (github config))))
  ∧ (slack_enabled (slack config) = true →
     is_Some (readToken env (slack_token_env (slack config)))).
Proof.
  unfold getEnabledServers, addGithub, addJira, addSlack.
  destruct (github_enabled (github config)),
    (readToken env (github_token_env (github config))) as [gh|],
    (jira_enabled (jira config)),
    (slack_enabled (slack config)),
    (readToken env (slack_token_env (slack config))) as [sl|];
    cbn; intros Hr; simplify_eq; repeat split; by eauto.
Qed.

Lemma readToken_Some env name token :
  readToken env name = Some token
  ↔ envLookup env name = Some token ∧ token ≠ EnvString "".
Proof.
  unfold readToken. destruct (envLookup env name) as [[s|inherited]|].
  - destruct (decide (s = "")) as [->|Hne].
    + rewrite bool_decide_eq_true_2 by done.
      split; [done | by intros [[= <-] Hne]].
    + rewrite bool_decide_eq_false_2 by done.
      split; [intros [= <-]; split; congruence | by intros [[= ->] _]].
  - split; [by intros [= <-] | by intros [[= ->] _]].
  - split; [done | by intros [? _]].
Qed.

(** X7: whatever the registry returns can be connected and routed: the
    names of the entries are distinct, hold no separator and end in no
    underscore, and every entry is launched through [npx]. *)
Theorem getEnabledServers_names_are_routable env config entries :
  getEnabledServers env config = inr entries →
  NoDup (map entry_name entries)
  ∧ Forall (λ e, Str.includes "__" (entry_name e) = false
                 ∧ Str.endsWithChar "_" (entry_name e) = false) entries
  ∧ Forall (λ e, entry_command e = "npx") entries.
Proof.
  intros Hr. destruct (getEnabledServers_cases _ _ _ Hr) as (-> & _ & _).
  destruct (github_enabled (github config)),
    (readToken env (github_token_env (github config))) as [gh|],
    (jira_enabled (jira config)),
    (slack_enabled (slack config)),
    (readToken env (slack_token_env (slack config))) as [sl|];
    cbn; (split; [|split]);
    try (repeat constructor; done);
    apply NoDup_ListNoDup; repeat constructor; cbn; intuition discriminate.
Qed.

Lemma getEnabledServers_names_are_routable_witness :
  NoDup ["github"; "jira"; "slack"].
Proof.
  apply (getEnabledServers_names_are_routable
           {["GITHUB_TOKEN" := "ghp_token"; "SLACK_BOT_TOKEN" := "xoxb-token"]}
           (exampleConfig true true true)
           [githubEntry (EnvString "ghp_token");
            jiraEntry "https://mcp.atlassian.com/v1/sse";
            slackEntry (EnvString "xoxb-token")]).
  vm_compute. reflexivity.
Defined.

(** X8: the tokens reach the servers.  In the options [connect] gives to
    the transport of a registry entry, the GitHub server finds under
    [GITHUB_PERSONAL_ACCESS_TOKEN], and the Slack server under
    [SLACK_BOT_TOKEN], the value that [process.env] gives under the name
    of the configuration, which is truthy: the variable's string, not
    empty, or what is inherited under that name when the variable is not
    set.  This holds whatever the process environment holds under these
    two names; the Jira server gets the variables of the process
    environment and nothing else. *)
Theorem registry_tokens_reach_the_servers env config entries W entry :
  getEnabledServers env config = inr entries →
  entry ∈ entries →
  match entry_name entry with
  | "github" =>
      ∃ token,
        envLookup env (github_token_env (github config)) = Some token
        ∧ token ≠ EnvString ""
        ∧ tp_env (transportParams W entry) !! "GITHUB_PERSONAL_ACCESS_TOKEN"
          = Some token
  | "slack" =>
      ∃ token,
        envLookup env (slack_token_env (slack config)) = Some token
        ∧ token ≠ EnvString ""
        ∧ tp_env (transportParams W entry) !! "SLACK_BOT_TOKEN" = Some token
  | _ =>
      tp_env (transportParams W entry) = EnvString <$> processEnv W
      ∧ entry_args entry = ["-y"; "mcp-remote"; jira_url (jira config)]
  end.
Proof.
  intros Hr Hin.
  destruct (getEnabledServers_cases _ _ _ Hr) as (-> & Hgh & Hsl).
  rewrite !elem_of_app in Hin. destruct Hin as [Hin|[Hin|Hin]].
  - destruct (github_enabled (github config)); [|by apply elem_of_nil in Hin].
    destruct (Hgh eq_refl) as [token Htok]. rewrite Htok in Hin.
    apply list_elem_of_singleton in Hin as ->.
    apply readToken_Some in Htok as [Henv Hne]. cbn.
    exists token. split; [done|split; [done|]].
    by rewrite lookup_union_l', lookup_singleton_eq
      by (rewrite lookup_singleton_eq; eauto).
  - destruct (jira_enabled (jira config)); [|by apply elem_of_nil in Hin].
    apply list_elem_of_singleton in Hin as ->. cbn.
    split; [|done]. by rewrite (left_id_L ∅ (∪)).
  - destruct (slack_enabled (slack config)); [|by apply elem_of_nil in Hin].
    destruct (Hsl eq_refl) as [token Htok]. rewrite Htok in Hin.
    apply list_elem_of_singleton in Hin as ->.
    apply readToken_Some in Htok as [Henv Hne]. cbn.
    exists token. split; [done|split; [done|]].
    by rewrite lookup_union_l', lookup_singleton_eq
      by (rewrite lookup_singleton_eq; eauto).
Qed.

Lemma registry_tokens_reach_the_servers_witness :
  ∃ token,
    envLookup ∅ "toString" = Some token
    ∧ token ≠ EnvString ""
    ∧ tp_env (transportParams
                {| processEnv := {["GITHUB_PERSONAL_ACCESS_TOKEN" := "stale"]};
                   startOutcome := λ _, None;
                   listToolsOutcome := λ _, inr [];
                   callToolOutcome := λ _, inr VNull;
                   closeOutcome := λ _, None |}
                (githubEntry (EnvInherited "toString")))
      !! "GITHUB_PERSONAL_ACCESS_TOKEN" = Some token.
Proof.
  apply (registry_tokens_reach_the_servers
           ∅ (githubOnly "toString")
           [githubEntry (EnvInherited "toString")] _
           (githubEntry (EnvInherited "toString"))).
  - vm_compute. reflexivity.
  - apply list_elem_of_In. left. reflexivity.
Defined.

(** X9: a token whose read is falsy stops the whole registry, and GitHub's
    is reported first.  With GitHub enabled and its variable set to the
    empty string, or unset under a name that [process.env] does not
    inherit, the error names GitHub and that variable, whatever the other
    integrations are; otherwise, with Slack enabled and its variable
    read as falsy in the same way, the error names Slack.  No partial
    list is returned in either case. *)
Theorem getEnabledServers_reports_first_missing_token env config :
  let missing name :=
    env !! name = Some ""
    ∨ (env !! name = None ∧ name ∉ objectPrototypeNames) in
  (github_enabled (github config) = true →
   missing (github_token_env (github config)) →
   getEnabledServers env config
   = inl (TokenNotSet "GitHub" (github_token_env (github config))))
  ∧ (github_enabled (github config) = false
     ∨ ¬ missing (github_token_env (github config)) →
     slack_enabled (slack config) = true →
     missing (slack_token_env (slack config)) →
     getEnabledServers env config
     = inl (TokenNotSet "Slack" (slack_token_env (slack config))))
  ∧ message (TokenNotSet "GitHub" (github_token_env (github config)))
    = "GitHub enabled but " +:+ github_token_env (github config)
      +:+ " not set in environment".
Proof.
  cbn zeta. rewrite <- !readToken_None.
  unfold getEnabledServers, addGithub, addJira, addSlack.
  split; [|split; [|done]].
  - by intros -> ->.
  - intros Hgh -> ->.
    destruct (github_enabled (github config)),
      (readToken env (github_token_env (github config))) as [gh|],
      (jira_enabled (jira config)); cbn; try done;
      by destruct Hgh as [|[]].
Qed.

Lemma getEnabledServers_reports_first_missing_token_witness :
  getEnabledServers {["SLACK_BOT_TOKEN" := "xoxb-token"]}
    (exampleConfig true true true)
  = inl (TokenNotSet "GitHub" "GITHUB_TOKEN").
Proof.
  apply (getEnabledServers_reports_first_missing_token
           {["SLACK_BOT_TOKEN" := "xoxb-token"]} (exampleConfig true true true));
    [reflexivity|].
  right. split; [reflexivity|]. vm_compute. intros Hin.
  apply list_elem_of_In in Hin. simpl in Hin. intuition discriminate.
Defined.

(** ** cmdSchedule *)

Module ScheduleFacts.
Import Schedule.

Lemma digit_char d : (d < 10)%N → isDigit (ascii_of_N (48 + d)) = true.
Proof.
  intros Hd.
  assert (d ∈ [0; 1; 2; 3; 4; 5; 6; 7; 8; 9]%N) as Hin.
  { apply list_elem_of_In. simpl.
    destruct d as [|[[[|[]|]|[[]|[]|]|]|[[|[]|]|[[]|[]|]|]|]]; try lia; tauto. }
  repeat (apply elem_of_cons in Hin as [->|Hin]; [reflexivity|]).
  by apply elem_of_nil in Hin.
Qed.

Lemma digit_value d :
  (d < 10)%N → (N.of_nat (nat_of_ascii (ascii_of_N (48 + d))) - 48 = d)%N.
Proof.
  intros Hd.
  assert (d ∈ [0; 1; 2; 3; 4; 5; 6; 7; 8; 9]%N) as Hin.
  { apply list_elem_of_In. simpl.
    destruct d as [|[[[|[]|]|[[]|[]|]|]|[[|[]|]|[[]|[]|]|]|]]; try lia; tauto. }
  repeat (apply elem_of_cons in Hin as [->|Hin]; [reflexivity|]).
  by apply elem_of_nil in Hin.
Qed.

Lemma digits_cons c s : isDigit c = true → digits s → digits (String c s).
Proof. unfold digits. intros Hc Hs. cbn. by rewrite Hc, Hs. Qed.

Lemma span_digits s t :
  digits s → fst (span isDigit t) = "" →
  span isDigit (s +:+ t) = (s, t).
Proof.
  unfold digits. induction s as [|c s IH]; intros Hs Ht.
  - change ("" +:+ t) with t. destruct t as [|c t]; [done|].
    cbn in *. by destruct (isDigit c).
  - rewrite StrFacts.app_cons. cbn in *. destruct (isDigit c); [|done].
    injection Hs as Hs1 Hs2.
    rewrite IH; [done| |done]. by destruct (span isDigit s); simplify_eq/=.
Qed.

Lemma decimalGo_digits fuel n acc :
  digits acc → digits (decimalGo fuel n acc).
Proof.
  revert n acc. induction fuel as [|fuel IH]; intros n acc Hacc; [done|].
  cbn [decimalGo].
  assert (digits (String (ascii_of_N (48 + n mod 10)) acc)) as Hacc'.
  { apply digits_cons; [|done]. apply digit_char.
    apply N.mod_upper_bound. lia. }
  destruct (n / 10 =? 0)%N; [done|by apply IH].
Qed.

Lemma decimal_digits n : digits (decimal n).
Proof. by apply decimalGo_digits. Qed.

Lemma decimalGo_nonempty fuel n acc :
  acc ≠ "" ∨ fuel ≠ O → decimalGo fuel n acc ≠ "".
Proof.
  revert n acc. induction fuel as [|fuel IH]; intros n acc Hne.
  - by destruct Hne.
  - cbn [decimalGo]. destruct (n / 10 =? 0)%N; [done|].
    apply IH. by left.
Qed.

Lemma decimal_nonempty n : decimal n ≠ "".
Proof. apply decimalGo_nonempty. by right. Qed.

Lemma digitsValue_app a s t :
  digitsValue a (s +:+ t) = digitsValue (digitsValue a s) t.
Proof.
  revert a. induction s as [|c s IH]; intros a; [done|].
  rewrite StrFacts.app_cons. cbn. apply IH.
Qed.

(** Reading what [decimal] wrote gives the number back. *)
Lemma decimalGo_value fuel n acc :
  (n < 10 ^ N.of_nat fuel)%N →
  ∃ k, (∀ a, digitsValue a (decimalGo fuel n acc)
             = digitsValue (a * 10 ^ k + n) acc)
       ∧ ∀ m, (1 ≤ m)%nat → (n < 10 ^ N.of_nat m)%N →
              (String.length (decimalGo fuel n acc) ≤ m + String.length acc)%nat.
Proof.
  revert n acc. induction fuel as [|fuel IH]; intros n acc Hn.
  { exists 0%N. assert (n = 0)%N as -> by (simpl in Hn; lia).
    split; [intros a; cbn; f_equal; lia | intros; simpl; lia]. }
  cbn [decimalGo].
  pose proof (N.mod_upper_bound n 10 ltac:(lia)) as Hmod.
  pose proof (N.div_mod n 10 ltac:(lia)) as Hdm.
  destruct (n / 10 =? 0)%N eqn:Hq.
  - apply N.eqb_eq in Hq. exists 1%N. split.
    + intros a. cbn [digitsValue]. rewrite digit_value by done.
      f_equal. lia.
    + intros m Hm _. simpl. lia.
  - apply N.eqb_neq in Hq.
    destruct (IH (n / 10)%N (String (ascii_of_N (48 + n mod 10)) acc))
      as (k & Hval & Hlen).
    { apply N.Div0.div_lt_upper_bound.
      rewrite <- N.pow_succ_r'. by rewrite <- Nat2N.inj_succ. }
    exists (N.succ k). split.
    + intros a. rewrite Hval. cbn [digitsValue]. rewrite digit_value by done.
      f_equal. rewrite N.pow_succ_r'. lia.
    + intros m Hm Hnm. destruct m as [|[|m]]; [lia| |].
      { simpl in Hnm. assert (n / 10 = 0)%N; [|done].
        apply N.div_small. lia. }
      specialize (Hlen (S m) ltac:(lia)). cbn [String.length] in Hlen.
      etrans; [apply Hlen|lia].
      apply N.Div0.div_lt_upper_bound.
      rewrite <- N.pow_succ_r'. by rewrite <- Nat2N.inj_succ.
Qed.

Lemma decimal_fuel n : (n < 10 ^ N.of_nat (S (N.to_nat (N.log2 n))))%N.
Proof.
  destruct (decide (n = 0)%N) as [->|Hn]; [done|].
  pose proof (N.log2_spec n ltac:(lia)) as [_ Hlt].
  rewrite Nat2N.inj_succ, N2Nat.id.
  eapply N.lt_le_trans; [exact Hlt|].
  apply N.pow_le_mono_l. lia.
Qed.

Lemma decimal_value n : digitsValue 0 (decimal n) = n.
Proof.
  destruct (decimalGo_value _ n "" (decimal_fuel n)) as (k & Hval & _).
  unfold decimal. rewrite Hval. cbn. lia.
Qed.

Lemma decimal_length n m :
  (1 ≤ m)%nat → (n < 10 ^ N.of_nat m)%N → (String.length (decimal n) ≤ m)%nat.
Proof.
  intros Hm Hn.
  destruct (decimalGo_value _ n "" (decimal_fuel n)) as (k & _ & Hlen).
  specialize (Hlen m Hm Hn). unfold decimal.
  change (String.length "") with O in Hlen. by rewrite Nat.add_0_r in Hlen.
Qed.

End ScheduleFacts.

Lemma upto_enum (P : N → Prop) `{∀ h, Decision (P h)} (n : nat) :
  forallb (λ h, bool_decide (P h)) (map N.of_nat (seq 0 (S n))) = true →
  ∀ h, (h ≤ N.of_nat n)%N → P h.
Proof.
  intros Hall h Hh. rewrite forallb_forall in Hall.
  apply (proj1 (bool_decide_eq_true _)), Hall.
  apply in_map_iff. exists (N.to_nat h).
  split; [lia|]. apply in_seq. lia.
Qed.

(** X10: clock times are converted to the 24-hour clock.  For every hour
    from 1 to 12, written with or without a leading zero and followed by
    am, AM, pm or PM, the hour field of the expression is the hour of the
    day: 12am is 0, 12pm is 12, and pm adds 12 to the others. *)
Theorem clock_times_become_hours rounded (h : N) (pm upper zero : bool) :
  (1 ≤ h ≤ 12)%N →
  Schedule.cronExpr rounded
    ((if zero && (h <? 10)%N then "0" else "") +:+ Schedule.decimal h
     +:+ (if pm then if upper then "PM" else "pm"
          else if upper then "AM" else "am"))
  = "0 " +:+ Schedule.decimal (h mod 12 + if pm then 12 else 0) +:+ " * * *".
Proof.
  intros [Hlo Hhi]. revert h Hhi Hlo.
  apply (upto_enum (λ h, (1 ≤ h)%N → _) 12).
  destruct pm, upper, zero; vm_compute; reflexivity.
Qed.

Lemma clock_times_become_hours_witness :
  Schedule.cronExpr (λ ds, ds) "09PM" = "0 21 * * *".
Proof.
  apply (clock_times_become_hours (λ ds, ds) 9 true true true). vm_compute.
  split; discriminate.
Defined.

(** X11: the hour of a clock time is never checked.  Every number of one
    or two digits is accepted: followed by pm it gets 12 added unless it
    is 12, so [13pm] to [99pm] give the hour fields 25 to 111, and
    followed by am it is kept unless it is 12. *)
Theorem clock_hours_are_not_validated rounded (h : N) :
  (h ≤ 99)%N →
  Schedule.cronExpr rounded (Schedule.decimal h +:+ "pm")
  = "0 " +:+ Schedule.decimal (if (h =? 12)%N then 12 else h + 12) +:+ " * * *"
  ∧ Schedule.cronExpr rounded (Schedule.decimal h +:+ "am")
    = "0 " +:+ Schedule.decimal (if (h =? 12)%N then 0 else h) +:+ " * * *".
Proof.
  revert h. apply (upto_enum _ 99). vm_compute. reflexivity.
Qed.

Lemma clock_hours_are_not_validated_witness :
  Schedule.cronExpr (λ ds, ds) "13pm" = "0 25 * * *".
Proof.
  apply (clock_hours_are_not_validated (λ ds, ds) 13). vm_compute.
  discriminate.
Defined.

Lemma matchesEvery_decimal unit n tail :
  Schedule.fst_not_digit tail →
  Schedule.matchesEvery unit ("*/" +:+ Schedule.decimal n +:+ tail)
  = bool_decide (tail = unit).
Proof.
  intros Htail. unfold Schedule.matchesEvery.
  change ("*/" +:+ Schedule.decimal n +:+ tail)
    with (String "*" (String "/" (Schedule.decimal n +:+ tail))).
  cbn [Str.startsWith Str.drop].
  rewrite (ScheduleFacts.span_digits _ _ (ScheduleFacts.decimal_digits n) Htail).
  cbn [fst snd]. rewrite !bool_decide_eq_true_2 by done.
  rewrite (bool_decide_eq_false_2 (Schedule.decimal n = ""))
    by apply ScheduleFacts.decimal_nonempty.
  by destruct (Schedule.decimal n +:+ tail).
Qed.

Lemma matchesClock_star s : Schedule.matchesClock (String "*" s) = false.
Proof. done. Qed.

Lemma slice_two s : Str.slice (String "*" (String "/" s)) 2 None = s.
Proof.
  rewrite (StrFacts.slice_suffix _ 2) by (simpl; lia). done.
Qed.

(** What follows the digits is the end of the string. *)
Lemma span_app p s :
  fst (Schedule.span p s) +:+ snd (Schedule.span p s) = s.
Proof.
  induction s as [|c s IH]; [done|]. cbn.
  destruct (p c); [|done]. cbn. by rewrite StrFacts.app_cons, IH.
Qed.

Lemma endsWithChar_app c s t :
  t ≠ "" → Str.endsWithChar c (s +:+ t) = Str.endsWithChar c t.
Proof.
  intros Ht. induction s as [|a s IH]; [done|].
  rewrite StrFacts.app_cons. cbn [Str.endsWithChar]. rewrite IH.
  destruct (s +:+ t) eqn:Hst; [|done].
  destruct s; [|by rewrite StrFacts.app_cons in Hst].
  by destruct t.
Qed.

Lemma endsWithChar_drop c n s :
  Str.drop n s ≠ "" → Str.endsWithChar c (Str.drop n s) = Str.endsWithChar c s.
Proof.
  revert s. induction n as [|n IH]; intros s Hne; [by destruct s|].
  destruct s as [|a s]; [done|]. cbn [Str.drop] in Hne |- *.
  rewrite (IH s Hne). cbn [Str.endsWithChar].
  destruct s; [by destruct n|done].
Qed.

(** A string that ends in a star matches neither interval pattern. *)
Lemma matchesEvery_star unit s :
  Str.endsWithChar "*" unit = false → unit ≠ "" →
  Str.endsWithChar "*" s = true →
  Schedule.matchesEvery unit s = false.
Proof.
  intros Hunit Hne Hs. unfold Schedule.matchesEvery.
  apply andb_false_iff. right. apply bool_decide_eq_false_2. intros Hsnd.
  pose proof (span_app Schedule.isDigit (Str.drop 2 s)) as Happ.
  rewrite Hsnd in Happ.
  assert (Str.drop 2 s ≠ "") as Hdrop.
  { rewrite <- Happ. destruct (fst _); [done|by rewrite StrFacts.app_cons]. }
  pose proof (endsWithChar_drop "*" 2 s Hdrop) as Hend.
  rewrite <- Happ, endsWithChar_app in Hend by done. congruence.
Qed.

(** X12: the interval forms keep their number.  For every number below
    2^53, up to where a JavaScript number holds every integer exactly,
    [*/Nh] becomes minute 0 of every [N]-th hour and [*/Nm] every [N]-th
    minute; the number is not checked, so 0 and steps beyond a day or an
    hour go through. *)
Theorem intervals_become_steps rounded (n : N) :
  (n < 2 ^ 53)%N →
  Schedule.cronExpr rounded ("*/" +:+ Schedule.decimal n +:+ "h")
  = "0 */" +:+ Schedule.decimal n +:+ " * * *"
  ∧ Schedule.cronExpr rounded ("*/" +:+ Schedule.decimal n +:+ "m")
    = "*/" +:+ Schedule.decimal n +:+ " * * * *".
Proof.
  intros Hn.
  assert (∀ unit, Schedule.fst_not_digit unit →
            Schedule.numberText rounded
              (Str.slice ("*/" +:+ Schedule.decimal n +:+ unit) 2 None)
            = Schedule.decimal n)
    as Hparse.
  { intros unit Hunit.
    change ("*/" +:+ Schedule.decimal n +:+ unit)
      with (String "*" (String "/" (Schedule.decimal n +:+ unit))).
    unfold Schedule.numberText. rewrite slice_two.
    rewrite (ScheduleFacts.span_digits _ _ (ScheduleFacts.decimal_digits n) Hunit).
    cbn [fst]. rewrite ScheduleFacts.decimal_value.
    by rewrite (proj2 (N.ltb_lt _ _) Hn). }
  unfold Schedule.cronExpr.
  change (Schedule.matchesClock ("*/" +:+ Schedule.decimal n +:+ "h"))
    with false.
  change (Schedule.matchesClock ("*/" +:+ Schedule.decimal n +:+ "m"))
    with false.
  rewrite !matchesEvery_decimal by done. cbn [bool_decide decide_rel].
  rewrite (Hparse "h" eq_refl), (Hparse "m" eq_refl).
  rewrite (bool_decide_eq_true_2 ("h" = "h")) by done.
  rewrite (bool_decide_eq_false_2 ("m" = "h")) by done.
  by rewrite (bool_decide_eq_true_2 ("m" = "m")) by done.
Qed.

Lemma intervals_become_steps_witness :
  Schedule.cronExpr (λ ds, ds) "*/15m" = "*/15 * * * *".
Proof.
  apply (intervals_become_steps (λ ds, ds) 15). reflexivity.
Defined.

(** X13: what [cmdSchedule] computes is left alone when given back: for
    every text, the expression computed from it is itself taken as a raw
    cron expression, whatever the text of a rounded number is. *)
Theorem cronExpr_output_is_raw rounded time :
  Schedule.cronExpr rounded (Schedule.cronExpr rounded time)
  = Schedule.cronExpr rounded time.
Proof.
  unfold Schedule.cronExpr at 2 3.
  destruct (Schedule.matchesClock time) eqn:Hclock; [reflexivity|].
  destruct (Schedule.matchesEvery "h" time) eqn:Hh; [reflexivity|].
  destruct (Schedule.matchesEvery "m" time) eqn:Hm.
  - unfold Schedule.cronExpr.
    change (Schedule.matchesClock ("*/" +:+ _ +:+ " * * * *")) with false.
    rewrite !matchesEvery_star; try done.
    all: change ("*/" +:+ ?x +:+ " * * * *")
           with (String "*" (String "/" (x +:+ " * * * *")));
      cbn [Str.endsWithChar];
      destruct (_ +:+ " * * * *") eqn:Happ;
      [by destruct (Schedule.numberText _ _)|];
      by rewrite <- Happ, endsWithChar_app.
  - unfold Schedule.cronExpr. by rewrite Hclock, Hh, Hm.
Qed.

(** X14: [cmdSchedule] refuses only a missing value.  It prints the usage
    and exits with status 1 exactly when [--every] is absent or its first
    occurrence is followed by nothing or by an empty argument; with any
    other text it returns, without a check of the text, and the second
    line printed is the expression computed from the text followed by
    the two paths and [run]. *)
Theorem cmdSchedule_needs_only_a_value rounded args execPath binPath :
  let out := fst (Schedule.cmdSchedule rounded args execPath binPath) in
  let how := snd (Schedule.cmdSchedule rounded args execPath binPath) in
  (how = Exits 1 ∧ out = Schedule.usage
   ∧ ¬ ∃ i time, Schedule.indexOfArg "--every" args = Some i
                 ∧ args !! S i = Some time ∧ time ≠ "")
  ∨ (how = Returns
     ∧ ∃ i time,
         Schedule.indexOfArg "--every" args = Some i
         ∧ args !! S i = Some time ∧ time ≠ ""
         ∧ out !! 1%nat
           = Some ("  " +:+ Schedule.cronExpr rounded time +:+ " " +:+ execPath
                   +:+ " " +:+ binPath +:+ " run")).
Proof.
  cbn zeta. unfold Schedule.cmdSchedule.
  destruct (Schedule.indexOfArg "--every" args) as [i|] eqn:Hi.
  2:{ left. split; [done|split; [done|]]. by intros (? & ? & ? & _). }
  destruct (args !! S i) as [time|] eqn:Ht.
  2:{ left. split; [done|split; [done|]].
      intros (? & ? & [= <-] & ? & _). congruence. }
  destruct (decide (time = "")) as [->|Hne].
  { rewrite bool_decide_eq_true_2 by done. left.
    split; [done|split; [done|]].
    intros (? & ? & [= <-] & ? & ?). congruence. }
  rewrite bool_decide_eq_false_2 by done.
  right. split; [done|]. by exists i, time.
Qed.
(** ** memory.ts *)

Module MemoryFacts.
Import Memory.

Lemma tree_ensureDir dir fs :
  tree (ensureDir dir fs) !! dir = Some (entriesOf dir fs).
Proof.
  unfold ensureDir, entriesOf. destruct (tree fs !! dir) eqn:Hd; [done|].
  cbn. by rewrite lookup_insert_eq.
Qed.

Lemma refusal_ensureDir dir fs : refusal (ensureDir dir fs) = refusal fs.
Proof. unfold ensureDir. by destruct (tree fs !! dir). Qed.

Lemma entriesOf_ensureDir dir fs :
  entriesOf dir (ensureDir dir fs) = entriesOf dir fs.
Proof. unfold entriesOf at 1. by rewrite tree_ensureDir. Qed.

Lemma ensureDir_ensureDir dir fs :
  ensureDir dir (ensureDir dir fs) = ensureDir dir fs.
Proof. unfold ensureDir at 1. by rewrite tree_ensureDir. Qed.

(** [mkdirSync] either raises, leaving everything as it is, or gives the
    file system with the directory. *)
Lemma mkdir_cases dir fs :
  (∃ e, mkdir dir fs = inl e
        ∧ (dir = "" ∨ refusal fs (Mkdir dir) = Some e))
  ∨ (mkdir dir fs = inr (ensureDir dir fs)
     ∧ dir ≠ "" ∧ refusal fs (Mkdir dir) = None).
Proof.
  unfold mkdir. case_bool_decide as Hd; [left; eexists; by eauto|].
  destruct (refusal fs (Mkdir dir)) as [e|]; [left|right]; eauto.
Qed.

Lemma mkdir_ensureDir dir fs fs' :
  mkdir dir fs = inr fs' → mkdir dir fs' = inr fs'.
Proof.
  destruct (mkdir_cases dir fs) as [(e & -> & _)|(-> & Hd & Hr)]; [done|].
  intros [= <-]. unfold mkdir. rewrite bool_decide_eq_false_2 by done.
  by rewrite refusal_ensureDir, Hr, ensureDir_ensureDir.
Qed.

Lemma listReports_eq home config fs :
  listReports (inr home) config fs
  = match mkdir (reportDir home config) fs with
    | inl e => (inl e, fs)
    | inr fs' =>
        match refusal fs (Readdir (reportDir home config)) with
        | Some e => (inl e, fs')
        | None =>
            (inr (reportsOf (entriesOf (reportDir home config) fs)), fs')
        end
    end.
Proof.
  unfold listReports, resolveDir. fold (reportDir home config).
  destruct (mkdir_cases (reportDir home config) fs)
    as [(e & -> & _)|(-> & Hd & Hr)]; [done|].
  unfold existsDir, readdir, reportsOf.
  rewrite tree_ensureDir, refusal_ensureDir.
  rewrite bool_decide_eq_true_2 by eauto. cbn [negb].
  by destruct (refusal fs (Readdir (reportDir home config))).
Qed.

Lemma loadPastReports_eq home pathJoin config fs :
  loadPastReports (inr home) pathJoin config fs
  = (let dir := reportDir home config in
     match mkdir dir fs with
     | inl e => (inl e, fs)
     | inr fs' =>
         match refusal fs (Readdir dir) with
         | Some e => (inl e, fs')
         | None =>
             let files :=
               sliceTo (reportsOf (entriesOf dir fs)) (memory_depth config) in
             (if bool_decide (length files = O) then inr ""
              else match mapM (section pathJoin dir fs') files with
                   | inl e => inl e
                   | inr sections =>
                       inr (Str.join (Schedule.nl +:+ Schedule.nl) sections)
                   end,
              fs')
         end
     end).
Proof.
  unfold loadPastReports, resolveDir. fold (reportDir home config). cbn zeta.
  destruct (mkdir_cases (reportDir home config) fs)
    as [(e & -> & _)|(-> & Hd & Hr)]; [done|].
  unfold existsDir, readdir, reportsOf.
  rewrite tree_ensureDir, refusal_ensureDir.
  rewrite bool_decide_eq_true_2 by eauto. cbn [negb].
  destruct (refusal fs (Readdir (reportDir home config))); [done|].
  case_bool_decide; [done|]. by destruct (mapM _ _).
Qed.

(** The order of the names. *)
Lemma compareUnits_refl x : compareUnits x x = Eq.
Proof. induction x as [|a x IH]; [done|]. cbn. by rewrite N.compare_refl. Qed.

Lemma compareUnits_eq x y : compareUnits x y = Eq → x = y.
Proof.
  revert y. induction x as [|a x IH]; intros [|b y]; cbn; try done.
  destruct (a ?= b)%N eqn:Hab; try done.
  apply N.compare_eq in Hab as ->. by intros ->%IH.
Qed.

Lemma compareUnits_antisym x y :
  compareUnits y x = CompOpp (compareUnits x y).
Proof.
  revert y. induction x as [|a x IH]; intros [|b y]; cbn; try done.
  rewrite (N.compare_antisym a b).
  destruct (a ?= b)%N; cbn; [apply IH|done|done].
Qed.

Lemma compareUnits_lt_trans x y z :
  compareUnits x y = Lt → compareUnits y z = Lt → compareUnits x z = Lt.
Proof.
  revert y z. induction x as [|a x IH]; intros [|b y] [|c z]; cbn; try done.
  destruct (a ?= b)%N eqn:Hab, (b ?= c)%N eqn:Hbc; try done.
  - apply N.compare_eq in Hab as ->, Hbc as ->.
    rewrite N.compare_refl. apply IH.
  - apply N.compare_eq in Hab as ->. by rewrite Hbc.
  - apply N.compare_eq in Hbc as <-. by rewrite Hab.
  - intros _ _. apply N.compare_lt_iff in Hab. apply N.compare_lt_iff in Hbc.
    assert ((a ?= c)%N = Lt) as ->; [|done].
    apply N.compare_lt_iff. by etrans.
Qed.

Lemma nameLe_total : Total nameLe.
Proof.
  intros a b. unfold nameLe.
  rewrite (compareUnits_antisym (codeUnits a) (codeUnits b)).
  destruct (compareUnits (codeUnits a) (codeUnits b)); cbn; try tauto.
  apply (total String.le).
Qed.

Lemma nameLe_refl a : nameLe a a.
Proof. by destruct (nameLe_total a a). Qed.

Lemma nameLe_trans : Transitive nameLe.
Proof.
  intros a b c. unfold nameLe.
  destruct (compareUnits (codeUnits a) (codeUnits b)) eqn:Hab;
    destruct (compareUnits (codeUnits b) (codeUnits c)) eqn:Hbc; try done.
  - apply compareUnits_eq in Hab, Hbc. rewrite Hab, Hbc, compareUnits_refl.
    intros ? ?. by etrans.
  - apply compareUnits_eq in Hab. by rewrite Hab, Hbc.
  - apply compareUnits_eq in Hbc. by rewrite <- Hbc, Hab.
  - by rewrite (compareUnits_lt_trans _ _ _ Hab Hbc).
Qed.

Lemma nameLe_antisym : AntiSymm eq nameLe.
Proof.
  intros a b. unfold nameLe.
  rewrite (compareUnits_antisym (codeUnits a) (codeUnits b)).
  destruct (compareUnits (codeUnits a) (codeUnits b)); cbn; try done.
  apply (anti_symm String.le).
Qed.

Lemma flip_le_trans : Transitive (flip nameLe).
Proof.
  intros x y z Hxy Hyz. unfold flip in *. by apply (nameLe_trans z y x).
Qed.

Lemma reportsOf_sorted entries :
  Sorted.StronglySorted (flip nameLe) (reportsOf entries).
Proof.
  unfold reportsOf, sort.
  apply (@sorting.Sorted_StronglySorted _ _ flip_le_trans).
  apply sorting.Sorted_reverse.
  apply (@sorting.Sorted_merge_sort _ nameLe _ nameLe_total).
Qed.

Lemma reportsOf_elem entries f :
  f ∈ reportsOf entries ↔ f ∈ map fst entries ∧ isReport f = true.
Proof.
  unfold reportsOf, sort.
  rewrite elem_of_reverse, sorting.merge_sort_Permutation.
  by rewrite list_elem_of_filter, (comm and).
Qed.

Lemma reportsOf_perm entries1 entries2 :
  entries1 ≡ₚ entries2 → reportsOf entries1 = reportsOf entries2.
Proof.
  intros Hp. unfold reportsOf, sort. f_equal.
  apply (@sorting.Sorted_unique _ nameLe nameLe_trans nameLe_antisym).
  - apply (@sorting.Sorted_merge_sort _ nameLe _ nameLe_total).
  - apply (@sorting.Sorted_merge_sort _ nameLe _ nameLe_total).
  - rewrite !sorting.merge_sort_Permutation. by rewrite Hp.
Qed.

End MemoryFacts.

(** X15: [listReports] raises only when [homedir()] raises, when
    [mkdirSync] refuses the directory, which it does for the empty path,
    or when [readdirSync] is refused.  Otherwise it lists exactly the
    entries of the report directory whose names end in [.md], from the
    greatest name to the least by code units, so with dated names from
    the newest report to the oldest.  The only change it makes is to
    create the directory when it is missing. *)
Theorem listReports_newest_first homedir config fs :
  match homedir with
  | inl e => Memory.listReports homedir config fs = (inl e, fs)
  | inr home =>
      let dir := Memory.reportDir home config in
      match Memory.mkdir dir fs with
      | inl e => Memory.listReports homedir config fs = (inl e, fs)
      | inr fs' =>
          fs' = Memory.ensureDir dir fs
          ∧ match Memory.refusal fs (Memory.Readdir dir) with
            | Some e => Memory.listReports homedir config fs = (inl e, fs')
            | None =>
                ∃ names,
                  Memory.listReports homedir config fs = (inr names, fs')
                  ∧ Sorted.StronglySorted (flip Memory.nameLe) names
                  ∧ names
                    ≡ₚ filter (λ f, Memory.endsWith ".md" f = true)
                         (map fst (Memory.entriesOf dir fs))
            end
      end
  end.
Proof.
  destruct homedir as [e|home]; [done|].
  cbn zeta. rewrite MemoryFacts.listReports_eq.
  destruct (MemoryFacts.mkdir_cases (Memory.reportDir home config) fs)
    as [(e & -> & _)|(-> & Hd & Hr)]; [done|].
  split; [done|].
  destruct (Memory.refusal fs (Memory.Readdir (Memory.reportDir home config)));
    [done|].
  eexists. split; [done|].
  split; [apply MemoryFacts.reportsOf_sorted|].
  unfold Memory.reportsOf, Memory.sort.
  by rewrite reverse_Permutation, sorting.merge_sort_Permutation.
Qed.

Module MemoryLookup.
Import Memory.

Lemma lookupEntry_Some entries f n :
  NoDup (map fst entries) →
  lookupEntry f entries = Some n ↔ (f, n) ∈ entries.
Proof.
  unfold lookupEntry. induction entries as [|[g m] entries IH]; intros Hnd.
  { cbn. split; [done|]. by intros ?%elem_of_nil. }
  cbn [map fst] in Hnd. apply NoDup_cons in Hnd as [Hg Hnd].
  cbn [List.find fst]. destruct (decide (g = f)) as [->|Hne].
  - rewrite bool_decide_eq_true_2 by done. cbn. split.
    + intros [= ->]. by left.
    + intros [[= ->]|Hin]%elem_of_cons; [done|].
      exfalso. apply Hg. apply list_elem_of_In, in_map_iff.
      exists (f, n). split; [done|by apply list_elem_of_In].
  - rewrite bool_decide_eq_false_2 by done. rewrite (IH Hnd). split.
    + by right.
    + intros [[= -> ->]|Hin]%elem_of_cons; [done|done].
Qed.

Lemma lookupEntry_perm entries1 entries2 f :
  NoDup (map fst entries1) → entries1 ≡ₚ entries2 →
  lookupEntry f entries1 = lookupEntry f entries2.
Proof.
  intros Hnd Hp.
  assert (NoDup (map fst entries2)) as Hnd2.
  { eapply NoDup_Permutation_proper; [|exact Hnd].
    symmetry. by apply Permutation_map. }
  apply option_eq. intros n.
  rewrite (lookupEntry_Some _ _ _ Hnd), (lookupEntry_Some _ _ _ Hnd2).
  by rewrite Hp.
Qed.

Lemma mapM_ext {A B} (f g : A → exn + B) xs :
  (∀ x, f x = g x) → mapM f xs = mapM g xs.
Proof.
  intros Hfg. induction xs as [|x xs IH]; [done|].
  cbn. by rewrite Hfg, IH.
Qed.

Lemma entriesOf_insert dir entries t r :
  entriesOf dir {| tree := <[dir := entries]> t; refusal := r |} = entries.
Proof. unfold entriesOf. cbn. by rewrite lookup_insert_eq. Qed.

Lemma ensureDir_exists dir entries t r :
  ensureDir dir {| tree := <[dir := entries]> t; refusal := r |}
  = {| tree := <[dir := entries]> t; refusal := r |}.
Proof. unfold ensureDir. cbn. by rewrite lookup_insert_eq. Qed.

Lemma mkdir_exists dir entries t r :
  mkdir dir {| tree := <[dir := entries]> t; refusal := r |}
  = if bool_decide (dir = "") then inl (ENOENT "mkdir" "")
    else match r (Mkdir dir) with
         | Some e => inl e
         | None => inr {| tree := <[dir := entries]> t; refusal := r |}
         end.
Proof. unfold mkdir. by rewrite ensureDir_exists. Qed.

Lemma readFile_insert path dir entries t r f :
  readFile path dir f {| tree := <[dir := entries]> t; refusal := r |}
  = match r (ReadFile dir f) with
    | Some e => inl e
    | None =>
        match lookupEntry f entries with
        | Some (File content) => inr content
        | Some Directory => inl EISDIR_read
        | None => inl (ENOENT "open" path)
        end
    end.
Proof. unfold readFile. cbn. by rewrite lookup_insert_eq. Qed.

End MemoryLookup.

(** X16: the order in which the directory lists its entries does not show:
    two report directories with the same entries, each name once, give
    the same list of reports and the same loaded text. *)
Theorem reports_ignore_listing_order homedir pathJoin config t r dir
    entries1 entries2 :
  entries1 ≡ₚ entries2 →
  NoDup (map fst entries1) →
  (∀ home, homedir = inr home → dir = Memory.reportDir home config) →
  let fs1 := {| Memory.tree := <[dir := entries1]> t; Memory.refusal := r |} in
  let fs2 := {| Memory.tree := <[dir := entries2]> t; Memory.refusal := r |} in
  fst (Memory.listReports homedir config fs1)
  = fst (Memory.listReports homedir config fs2)
  ∧ fst (Memory.loadPastReports homedir pathJoin config fs1)
    = fst (Memory.loadPastReports homedir pathJoin config fs2).
Proof.
  intros Hp Hnd Hdir. cbn zeta.
  destruct homedir as [e|home]; [done|].
  rewrite !MemoryFacts.listReports_eq, !MemoryFacts.loadPastReports_eq.
  cbn zeta. rewrite <- (Hdir home eq_refl). clear Hdir.
  rewrite !MemoryLookup.mkdir_exists.
  rewrite !MemoryLookup.entriesOf_insert. cbn [Memory.refusal].
  rewrite (MemoryFacts.reportsOf_perm _ _ Hp).
  case_bool_decide; [done|].
  destruct (r (Memory.Mkdir dir)); [done|].
  destruct (r (Memory.Readdir dir)); [done|].
  split; [done|]. cbn [fst].
  case_bool_decide; [done|].
  rewrite (MemoryLookup.mapM_ext
             (Memory.section pathJoin dir
                {| Memory.tree := <[dir := entries1]> t; Memory.refusal := r |})
             (Memory.section pathJoin dir
                {| Memory.tree := <[dir := entries2]> t; Memory.refusal := r |}));
    [done|].
  intros f. unfold Memory.section. rewrite !MemoryLookup.readFile_insert.
  by rewrite (MemoryLookup.lookupEntry_perm _ _ f Hnd Hp).
Qed.

Lemma reports_ignore_listing_order_witness :
  fst (Memory.loadPastReports (inr "/home/u") (λ a b, a +:+ "/" +:+ b)
         {| Memory.output_dir := "~/reports"; Memory.memory_depth := 2 |}
         {| Memory.tree :=
              <["/home/u/reports" :=
                  [("2026-10-31.md", Memory.File "b");
                   ("2026-11-01.md", Memory.File "a")]]> ∅;
            Memory.refusal := λ _, None |})
  = fst (Memory.loadPastReports (inr "/home/u") (λ a b, a +:+ "/" +:+ b)
           {| Memory.output_dir := "~/reports"; Memory.memory_depth := 2 |}
           {| Memory.tree :=
                <["/home/u/reports" :=
                    [("2026-11-01.md", Memory.File "a");
                     ("2026-10-31.md", Memory.File "b")]]> ∅;
              Memory.refusal := λ _, None |}).
Proof.
  apply (reports_ignore_listing_order (inr "/home/u") (λ a b, a +:+ "/" +:+ b)
           {| Memory.output_dir := "~/reports"; Memory.memory_depth := 2 |} ∅
           (λ _, None) "/home/u/reports"
           [("2026-10-31.md", Memory.File "b");
            ("2026-11-01.md", Memory.File "a")]
           [("2026-11-01.md", Memory.File "a");
            ("2026-10-31.md", Memory.File "b")]).
  - apply perm_swap.
  - apply NoDup_ListNoDup. repeat constructor; simpl; intuition discriminate.
  - intros home [= <-]. reflexivity.
Defined.



Module MemorySave.
Import Memory.

Lemma str_app_nil_r s : s +:+ "" = s.
Proof. induction s as [|a s IH]; [done|]. by rewrite StrFacts.app_cons, IH. Qed.

(** Where a name without [.md] gets [.md] appended, that is the first. *)
Lemma search_md_app s :
  Str.search ".md" s = None →
  Str.search ".md" (s +:+ ".md") = Some (String.length s).
Proof.
  induction s as [|a s IH]; intros Hs; [done|].
  rewrite StrFacts.search_unfold in Hs.
  destruct (Str.startsWith ".md" (String a s)) eqn:Hp; [done|].
  destruct (Str.search ".md" s) eqn:Hs'; [done|]. clear Hs.
  rewrite StrFacts.app_cons, StrFacts.search_unfold.
  assert (Str.startsWith ".md" (String a (s +:+ ".md")) = false) as ->.
  { cbn [Str.startsWith] in Hp |- *.
    destruct (bool_decide ("."%char = a)); [|done]. cbn [andb] in Hp |- *.
    destruct s as [|b s]; [done|]. rewrite StrFacts.app_cons.
    cbn [Str.startsWith] in Hp |- *.
    destruct (bool_decide ("m"%char = b)); [|done]. cbn [andb] in Hp |- *.
    destruct s as [|c s]; [done|]. rewrite StrFacts.app_cons.
    cbn [Str.startsWith] in Hp |- *.
    destruct (bool_decide ("d"%char = c)); [|done]. done. }
  by rewrite IH.
Qed.

Lemma date_of_report stem :
  Str.includes ".md" stem = false →
  replaceFirst ".md" "" (stem +:+ ".md") = stem.
Proof.
  intros Hs%StrFacts.includes_false. unfold replaceFirst.
  rewrite (search_md_app _ Hs). cbn [substitution].
  rewrite StrFacts.take_app.
  change ("" +:+ ?x) with x. 
  replace (Str.drop (String.length stem + String.length ".md") (stem +:+ ".md"))
    with "".
  - apply str_app_nil_r.
  - rewrite <- StrCuts.drop_drop, StrFacts.drop_app. done.
Qed.

Lemma isReport_app stem : isReport (stem +:+ ".md") = true.
Proof.
  unfold isReport, endsWith. rewrite StrFacts.length_app.
  rewrite bool_decide_eq_true_2 by lia.
  replace (String.length stem + String.length ".md" - String.length ".md")%nat
    with (String.length stem) by lia.
  by rewrite StrFacts.drop_app, bool_decide_eq_true_2.
Qed.

Lemma lookupEntry_put name content entries :
  lookupEntry name (putEntry name content entries) = Some (File content).
Proof.
  unfold lookupEntry. induction entries as [|[g m] entries IH]; cbn.
  - by rewrite bool_decide_eq_true_2.
  - destruct (decide (g = name)) as [->|Hne].
    + rewrite bool_decide_eq_true_2 by done. cbn.
      by rewrite bool_decide_eq_true_2.
    + rewrite bool_decide_eq_false_2 by done. cbn.
      by rewrite bool_decide_eq_false_2.
Qed.

Lemma names_put name content entries f :
  f ∈ map fst (putEntry name content entries)
  ↔ f = name ∨ f ∈ map fst entries.
Proof.
  induction entries as [|[g m] entries IH]; cbn.
  - rewrite list_elem_of_singleton. split; [by left|].
    by intros [|?%elem_of_nil].
  - destruct (decide (g = name)) as [->|Hne].
    + rewrite bool_decide_eq_true_2 by done. cbn. rewrite !elem_of_cons.
      tauto.
    + rewrite bool_decide_eq_false_2 by done. cbn. rewrite !elem_of_cons, IH.
      tauto.
Qed.

Lemma putEntry_put name c1 c2 entries :
  putEntry name c2 (putEntry name c1 entries) = putEntry name c2 entries.
Proof.
  induction entries as [|[g m] entries IH]; cbn.
  - by rewrite bool_decide_eq_true_2.
  - destruct (decide (g = name)) as [->|Hne].
    + rewrite bool_decide_eq_true_2 by done. cbn.
      by rewrite bool_decide_eq_true_2.
    + rewrite bool_decide_eq_false_2 by done. cbn.
      rewrite bool_decide_eq_false_2 by done. by rewrite IH.
Qed.

Lemma saveReport_unfold home pathJoin now config report fs :
  let dir := reportDir home config in
  let name := beforeFirst "T" now +:+ ".md" in
  saveReport (inr home) pathJoin now config report fs
  = match mkdir dir fs with
    | inl e => (inl e, fs)
    | inr fs' =>
        match writeFile (pathJoin dir name) dir name report fs' with
        | inl e => (inl e, fs')
        | inr fs'' => (inr (pathJoin dir name), fs'')
        end
    end.
Proof.
  cbn zeta. unfold saveReport, resolveDir. fold (reportDir home config).
  by destruct (mkdir (reportDir home config) fs).
Qed.

Lemma saveReport_eq home pathJoin now config report fs :
  let dir := reportDir home config in
  let name := beforeFirst "T" now +:+ ".md" in
  dir ≠ "" →
  refusal fs (Mkdir dir) = None →
  refusal fs (WriteFile dir name) = None →
  lookupEntry name (entriesOf dir fs) ≠ Some Directory →
  saveReport (inr home) pathJoin now config report fs
  = (inr (pathJoin dir name),
     {| tree := <[dir := putEntry name report (entriesOf dir fs)]> (tree fs);
        refusal := refusal fs |}).
Proof.
  cbn zeta. intros Hd Hr Hw Hfile. rewrite saveReport_unfold. cbn zeta.
  unfold mkdir. rewrite bool_decide_eq_false_2, Hr by done.
  unfold writeFile.
  rewrite MemoryFacts.refusal_ensureDir, Hw, MemoryFacts.tree_ensureDir.
  assert (<[reportDir home config :=
              putEntry (beforeFirst "T" now +:+ ".md") report
                (entriesOf (reportDir home config) fs)]>
            (tree (ensureDir (reportDir home config) fs))
          = <[reportDir home config :=
                putEntry (beforeFirst "T" now +:+ ".md") report
                  (entriesOf (reportDir home config) fs)]> (tree fs)) as ->.
  { unfold ensureDir. destruct (tree fs !! reportDir home config); [done|].
    cbn. by rewrite insert_insert_eq. }
  by destruct (lookupEntry _ _) as [[]|].
Qed.

(** The head of a list sorted downwards is its greatest element. *)
Lemma sorted_head (l : list string) x :
  Sorted.StronglySorted (flip nameLe) l →
  x ∈ l → (∀ f, f ∈ l → nameLe f x) →
  ∃ rest, l = x :: rest.
Proof.
  intros Hs Hx Hmax. destruct l as [|y rest]; [by apply elem_of_nil in Hx|].
  exists rest. f_equal.
  apply Sorted.StronglySorted_inv in Hs as [_ Hy].
  apply MemoryFacts.nameLe_antisym.
  - apply Hmax. by left.
  - apply elem_of_cons in Hx as [->|Hx]; [apply MemoryFacts.nameLe_refl|].
    rewrite List.Forall_forall in Hy. apply Hy. by apply list_elem_of_In.
Qed.

End MemorySave.

(** X18: what is saved is what is loaded.  When [homedir()] returns,
    today's file name is the greatest among the reports of the directory
    and is not taken by a directory, the directory is not the empty path,
    and the host refuses none of the four requests made, [saveReport]
    returns the joined path and, with a depth of 1, [loadPastReports]
    then returns the header with today's date followed by the report
    saved. *)
Theorem saved_report_is_loaded home pathJoin now config report fs :
  let dir := Memory.reportDir home config in
  let date := Memory.beforeFirst "T" now in
  Memory.memory_depth config = 1 →
  Str.includes ".md" date = false →
  dir ≠ "" →
  Memory.refusal fs (Memory.Mkdir dir) = None →
  Memory.refusal fs (Memory.WriteFile dir (date +:+ ".md")) = None →
  Memory.refusal fs (Memory.Readdir dir) = None →
  Memory.refusal fs (Memory.ReadFile dir (date +:+ ".md")) = None →
  Memory.lookupEntry (date +:+ ".md") (Memory.entriesOf dir fs)
  ≠ Some Memory.Directory →
  (∀ f, f ∈ map fst (Memory.entriesOf dir fs) →
        Memory.endsWith ".md" f = true → Memory.nameLe f (date +:+ ".md")) →
  let saved := Memory.saveReport (inr home) pathJoin now config report fs in
  fst saved = inr (pathJoin dir (date +:+ ".md"))
  ∧ fst (Memory.loadPastReports (inr home) pathJoin config (snd saved))
    = inr ("--- Report from " +:+ date +:+ " ---" +:+ Schedule.nl +:+ report).
Proof.
  cbn zeta. intros Hdepth Hdate Hd Hmk Hwr Hls Hrd Hfile Hmax.
  rewrite (MemorySave.saveReport_eq _ _ _ _ _ _ Hd Hmk Hwr Hfile).
  cbn [fst snd]. split; [done|].
  rewrite MemoryFacts.loadPastReports_eq. cbn zeta.
  rewrite MemoryLookup.mkdir_exists, bool_decide_eq_false_2 by done.
  cbn [Memory.refusal]. rewrite Hmk, Hls. cbn [fst].
  rewrite MemoryLookup.entriesOf_insert, Hdepth.
  set (dir := Memory.reportDir home config).
  set (name := Memory.beforeFirst "T" now +:+ ".md").
  set (entries := Memory.putEntry name report (Memory.entriesOf dir fs)).
  destruct (MemorySave.sorted_head (Memory.reportsOf entries) name)
    as [rest Hl].
  - apply MemoryFacts.reportsOf_sorted.
  - apply MemoryFacts.reportsOf_elem. split.
    + apply MemorySave.names_put. by left.
    + apply MemorySave.isReport_app.
  - intros f [Hf Hrep]%MemoryFacts.reportsOf_elem.
    apply MemorySave.names_put in Hf as [->|Hf];
      [apply MemoryFacts.nameLe_refl|].
    by apply Hmax.
  - rewrite Hl. unfold Memory.sliceTo, Str.clamp. cbn [length].
    replace (Z.to_nat _) with 1%nat by (cbn; lia).
    cbn [take bool_decide length Memory.mapM].
    rewrite bool_decide_eq_false_2 by done.
    unfold Memory.section. rewrite MemoryLookup.readFile_insert.
    fold dir in Hrd. fold name in Hrd. rewrite Hrd.
    subst entries. rewrite MemorySave.lookupEntry_put.
    subst name. by rewrite (MemorySave.date_of_report _ Hdate).
Qed.

Lemma saved_report_is_loaded_witness :
  fst (Memory.loadPastReports (inr "/home/u") (λ a b, a +:+ "/" +:+ b)
         {| Memory.output_dir := "~/reports"; Memory.memory_depth := 1 |}
         (snd (Memory.saveReport (inr "/home/u") (λ a b, a +:+ "/" +:+ b)
                 "2026-11-02T07:08:09.000Z"
                 {| Memory.output_dir := "~/reports"; Memory.memory_depth := 1 |}
                 "All quiet."
                 {| Memory.tree :=
                      {["/home/u/reports" :=
                          [("2026-11-01.md", Memory.File "a")]]};
                    Memory.refusal := λ _, None |})))
  = inr ("--- Report from 2026-11-02 ---" +:+ Schedule.nl +:+ "All quiet.").
Proof.
  apply (saved_report_is_loaded "/home/u" (λ a b, a +:+ "/" +:+ b)
           "2026-11-02T07:08:09.000Z"
           {| Memory.output_dir := "~/reports"; Memory.memory_depth := 1 |}
           "All quiet."
           {| Memory.tree :=
                {["/home/u/reports" := [("2026-11-01.md", Memory.File "a")]]};
              Memory.refusal := λ _, None |}).
  - reflexivity.
  - reflexivity.
  - vm_compute. discriminate.
  - reflexivity.
  - reflexivity.
  - reflexivity.
  - reflexivity.
  - vm_compute. discriminate.
  - intros f Hf _. vm_compute in Hf. apply list_elem_of_In in Hf.
    destruct Hf as [<-|[]]. vm_compute. exact I.
Defined.

(** X19: one report a day.  Saving again on the same date replaces the
    report of that date: the state and the path returned, or the error
    raised, are those of saving the second report alone. *)
Theorem saving_again_replaces homedir pathJoin now config first second fs :
  (∀ home,
     homedir = inr home →
     Memory.lookupEntry (Memory.beforeFirst "T" now +:+ ".md")
       (Memory.entriesOf (Memory.reportDir home config) fs)
     ≠ Some Memory.Directory) →
  Memory.saveReport homedir pathJoin now config second
    (snd (Memory.saveReport homedir pathJoin now config first fs))
  = Memory.saveReport homedir pathJoin now config second fs.
Proof.
  intros Hfile. destruct homedir as [e|home]; [done|].
  specialize (Hfile home eq_refl).
  set (dir := Memory.reportDir home config).
  set (name := Memory.beforeFirst "T" now +:+ ".md").
  destruct (MemoryFacts.mkdir_cases dir fs) as [(e & He & _)|(Hmk & Hd & Hr)].
  { rewrite (MemorySave.saveReport_unfold _ _ _ _ first fs). cbn zeta.
    fold dir. by rewrite He. }
  destruct (Memory.refusal fs (Memory.WriteFile dir name)) as [e|] eqn:Hw.
  - assert (∀ report,
      Memory.saveReport (inr home) pathJoin now config report fs
      = (inl e, Memory.ensureDir dir fs)) as Hrefused.
    { intros report. rewrite MemorySave.saveReport_unfold. cbn zeta.
      fold dir name. rewrite Hmk. unfold Memory.writeFile.
      by rewrite MemoryFacts.refusal_ensureDir, Hw. }
    rewrite !Hrefused. cbn [snd].
    rewrite MemorySave.saveReport_unfold. cbn zeta. fold dir name.
    rewrite (MemoryFacts.mkdir_ensureDir _ _ _ Hmk). unfold Memory.writeFile.
    by rewrite MemoryFacts.refusal_ensureDir, Hw.
  - rewrite !(MemorySave.saveReport_eq _ _ _ _ _ fs Hd Hr Hw Hfile).
    cbn [snd]. rewrite MemorySave.saveReport_eq; try done.
    + rewrite MemoryLookup.entriesOf_insert. cbn [Memory.tree Memory.refusal].
      by rewrite insert_insert_eq, MemorySave.putEntry_put.
    + rewrite MemoryLookup.entriesOf_insert.
      by rewrite MemorySave.lookupEntry_put.
Qed.

Lemma saving_again_replaces_witness :
  Memory.saveReport (inr "/home/u") (λ a b, a +:+ "/" +:+ b)
    "2026-11-02T19:00:00.000Z"
    {| Memory.output_dir := "~/reports"; Memory.memory_depth := 1 |} "evening"
    (snd (Memory.saveReport (inr "/home/u") (λ a b, a +:+ "/" +:+ b)
            "2026-11-02T19:00:00.000Z"
            {| Memory.output_dir := "~/reports"; Memory.memory_depth := 1 |}
            "morning" emptyFiles))
  = Memory.saveReport (inr "/home/u") (λ a b, a +:+ "/" +:+ b)
      "2026-11-02T19:00:00.000Z"
      {| Memory.output_dir := "~/reports"; Memory.memory_depth := 1 |} "evening"
      emptyFiles.
Proof.
  apply (saving_again_replaces (inr "/home/u") (λ a b, a +:+ "/" +:+ b)
           "2026-11-02T19:00:00.000Z"
           {| Memory.output_dir := "~/reports"; Memory.memory_depth := 1 |}
           "morning" "evening" emptyFiles).
  intros home [= <-]. vm_compute. discriminate.
Defined.

(** ** cmdRun *)

Module RunFacts.
Import Run.

Lemma disconnect_run W st :
  disconnect W st
  = (inr tt,
     {| servers := []; githubOrgs := githubOrgs st; heap := heap st;
        created := created st;
        trace := trace st
                 ++ map (λ s, EvClose (server_transport s)) (servers st) |}).
Proof.
  destruct st as [sv orgs hp cr tr].
  unfold disconnect. unfold mbind, M_bind, get. cbn [servers].
  by rewrite closeAll_spec.
Qed.

(** The [finally] block changes nothing when the process has exited, and
    otherwise closes what the manager holds. *)
Lemma finallyDisconnect_exit W r code :
  how (finallyDisconnect W r) = Exits code →
  how r = Exits code ∧ finallyDisconnect W r = r.
Proof.
  unfold finallyDisconnect.
  destruct (how r) eqn:Hh, (manager r) as [st|] eqn:Hm; cbn;
    rewrite ?disconnect_run; cbn; try done; by rewrite ?Hh.
Qed.

Lemma finallyDisconnect_closes W r st :
  manager r = Some st → (∀ code, how r ≠ Exits code) →
  finallyDisconnect W r
  = {| how := how r; manager := Some (snd (disconnect W st));
       files := files r; printed := printed r |}.
Proof.
  intros Hm Hh. unfold finallyDisconnect. rewrite Hm, disconnect_run.
  destruct (how r) eqn:Hr; cbn; try done. by destruct (Hh code).
Qed.

Lemma connect_run W entries orgs :
  ∃ st1,
    connect W entries (newManager orgs []) = (inr tt, st1)
    ∧ servers st1 = omap established (attempts W (newManager orgs []) entries)
    ∧ omap closeOf (trace st1) = [].
Proof.
  destruct (connect_spec W entries (newManager orgs []))
    as (st1 & Hrun & Hs & _).
  exists st1. split; [done|]. split; [done|].
  pose proof (connect_closes W entries (newManager orgs [])) as Hc.
  by rewrite Hrun in Hc.
Qed.

(** The [try] block always leaves a manager, and can only exit with the
    message about the tools. *)
Lemma tryBlock_exit W H report isDry noSave entries orgs fs code :
  how (tryBlock W H report isDry noSave entries (newManager orgs []) fs)
  = Exits code →
  tryBlock W H report isDry noSave entries (newManager orgs []) fs
  = {| how := Exits 1;
       manager := Some (snd (connect W entries (newManager orgs [])));
       files := fs;
       printed := [ErrLine "No tools available from any MCP server."] |}.
Proof.
  unfold tryBlock.
  destruct (connect_run W entries orgs) as (st1 & -> & _ & _).
  unfold getAllTools. unfold mbind, M_bind, get, mret, M_ret.
  case_bool_decide; [done|].
  destruct isDry; [done|].
  destruct (Memory.loadPastReports _ _ _) as [[e|past] fs1]; [done|].
  destruct (agent H _ _ _) as [[e|text] st3]; [done|].
  destruct noSave; [done|].
  by destruct (Memory.saveReport _ _ _ _ _ _) as [[e|path] fs2].
Qed.

Lemma tryBlock_manager W H report isDry noSave entries orgs fs :
  (∀ sp um s, servers (snd (agent H sp um s)) = servers s) →
  ∃ st,
    manager (tryBlock W H report isDry noSave entries (newManager orgs []) fs)
    = Some st
    ∧ servers st = omap established (attempts W (newManager orgs []) entries).
Proof.
  intros Hagent. unfold tryBlock.
  destruct (connect_run W entries orgs) as (st1 & -> & Hs & _).
  unfold getAllTools. unfold mbind, M_bind, get, mret, M_ret.
  case_bool_decide; [by eexists|].
  destruct isDry; [by eexists|].
  destruct (Memory.loadPastReports _ _ _) as [[e|past] fs1]; [by eexists|].
  pose proof (Hagent (buildSystemPrompt H past) (userMessage H) st1) as Hst.
  destruct (agent H _ _ _) as [[e|text] st3]; cbn in Hst;
    [eexists; split; [done|congruence]|].
  destruct noSave; [eexists; split; [done|congruence]|].
  destruct (Memory.saveReport _ _ _ _ _ _) as [[e|path] fs2];
    eexists; (split; [done|congruence]).
Qed.

Lemma loadPastReports_files homedir pathJoin config fs :
  snd (Memory.loadPastReports homedir pathJoin config fs) = fs
  ∨ ∃ home,
      homedir = inr home
      ∧ snd (Memory.loadPastReports homedir pathJoin config fs)
        = Memory.ensureDir (Memory.reportDir home config) fs.
Proof.
  destruct homedir as [e|home]; [by left|].
  rewrite MemoryFacts.loadPastReports_eq. cbn zeta.
  destruct (MemoryFacts.mkdir_cases (Memory.reportDir home config) fs)
    as [(e & -> & _)|(-> & _ & _)]; [by left|].
  right. exists home. split; [done|].
  by destruct (Memory.refusal fs (Memory.Readdir (Memory.reportDir home config))).
Qed.

Lemma tryBlock_files W H report isDry noSave entries st0 fs :
  isDry = true ∨ noSave = true →
  files (tryBlock W H report isDry noSave entries st0 fs) = fs
  ∨ ∃ dir,
      home H = inr dir
      ∧ files (tryBlock W H report isDry noSave entries st0 fs)
        = Memory.ensureDir (Memory.reportDir dir report) fs.
Proof.
  intros Hflag. unfold tryBlock.
  destruct (connect W entries st0) as [[e|[]] st1]; [by left|].
  unfold getAllTools. unfold mbind, M_bind, get, mret, M_ret.
  case_bool_decide; [by left|].
  destruct isDry; [by left|]. destruct Hflag as [Hd| ->]; [done|].
  pose proof (loadPastReports_files (home H) (pathJoin H) report fs) as Hfs.
  destruct (Memory.loadPastReports _ _ _ _) as [[e|past] fs1]; [done|].
  by destruct (agent H _ _ _) as [[e|text] st3].
Qed.

Lemma finallyDisconnect_files W r : files (finallyDisconnect W r) = files r.
Proof.
  unfold finallyDisconnect.
  destruct (how r), (manager r) as [st|]; cbn; rewrite ?disconnect_run; done.
Qed.

End RunFacts.

(** X20: when [cmdRun] ends the process, it does so with status 1, after
    one error line of its own (what [connect] logged is in the trace of
    the manager), with the file system as it was, and without having
    asked any transport to close, also when [connect] had started some. *)
Theorem cmdRun_exit_closes_nothing W H args fs code :
  Run.how (Run.cmdRun W H args fs) = Exits code →
  code = 1
  ∧ Run.files (Run.cmdRun W H args fs) = fs
  ∧ (∃ msg, Run.printed (Run.cmdRun W H args fs) = [Run.ErrLine msg])
  ∧ (∀ st, Run.manager (Run.cmdRun W H args fs) = Some st →
           omap closeOf (trace st) = []).
Proof.
  unfold Run.cmdRun.
  destruct (Run.configExists H); cbn [negb];
    [|intros [= <-]; cbn; split_and!; by eauto].
  destruct (Run.loadConfig H) as [e|[config report]]; [done|].
  destruct (getEnabledServers _ _) as [e|entries]; [done|].
  case_bool_decide; [intros [= <-]; cbn; split_and!; by eauto|].
  intros Hexit.
  apply RunFacts.finallyDisconnect_exit in Hexit as [Hexit ->].
  pose proof (RunFacts.tryBlock_exit _ _ _ _ _ _ _ _ _ Hexit) as Hblock.
  rewrite Hblock in Hexit |- *. cbn in *.
  split_and!; [congruence|done|by eauto|].
  intros st [= <-]. by rewrite connect_closes.
Qed.

Lemma cmdRun_exit_closes_nothing_witness :
  let W := scriptedWorld [inr []] (inr VNull) in
  let H := exampleHost (exampleConfig false true false) (agentReturning "ok") in
  ∃ st,
    Run.manager (Run.cmdRun W H ["run"] emptyFiles) = Some st
    ∧ length (omap startOf (trace st)) = 1%nat
    ∧ omap closeOf (trace st) = [].
Proof.
  eexists. split; [vm_compute; reflexivity|]. split; [vm_compute; reflexivity|].
  refine (proj2 (proj2 (proj2
    (cmdRun_exit_closes_nothing
       (scriptedWorld [inr []] (inr VNull))
       (exampleHost (exampleConfig false true false) (agentReturning "ok"))
       ["run"] emptyFiles 1 _))) _ _); vm_compute; reflexivity.
Defined.

(** X21: when [cmdRun] made a manager and did not end the process, the
    manager holds no server at the end and its trace ends with the close
    requests for the servers that [connect] established, in their order;
    this holds whether the agent returned or raised and whether the report
    could be saved, for an agent that leaves the list of servers alone. *)
Theorem cmdRun_disconnects_in_the_end W H args fs st :
  (∀ sp um s, servers (snd (Run.agent H sp um s)) = servers s) →
  Run.manager (Run.cmdRun W H args fs) = Some st →
  (∀ code, Run.how (Run.cmdRun W H args fs) ≠ Exits code) →
  servers st = []
  ∧ ∃ config report entries tr,
      Run.loadConfig H = inr (config, report)
      ∧ getEnabledServers (processEnv W) config = inr entries
      ∧ trace st
        = tr ++ map (λ s, EvClose (server_transport s))
                  (omap established
                     (attempts W (newManager (github_orgs (github config)) [])
                        entries)).
Proof.
  intros Hagent. unfold Run.cmdRun.
  destruct (Run.configExists H); cbn [negb]; [|done].
  destruct (Run.loadConfig H) as [e|[config report]]; [done|].
  destruct (getEnabledServers _ _) as [e|entries] eqn:Hentries; [done|].
  case_bool_decide; [done|].
  set (isDry := bool_decide ("--dry" ∈ args)).
  set (noSave := bool_decide ("--no-save" ∈ args)).
  set (orgs := github_orgs (github config)).
  destruct (RunFacts.tryBlock_manager W H report isDry noSave entries orgs fs
              Hagent) as (st1 & Hm & Hs).
  intros Hst Hhow.
  assert (∀ code,
    Run.how (Run.tryBlock W H report isDry noSave entries
               (newManager orgs []) fs) ≠ Exits code) as Hhow'.
  { intros code Hexit. apply (Hhow code).
    unfold Run.finallyDisconnect. by rewrite Hexit. }
  rewrite (RunFacts.finallyDisconnect_closes _ _ _ Hm Hhow') in Hst.
  cbn in Hst. injection Hst as <-.
  rewrite RunFacts.disconnect_run. cbn [snd servers trace]. split; [done|].
  exists config, report, entries, (trace st1). by rewrite Hs.
Qed.

Lemma cmdRun_disconnects_in_the_end_witness :
  let W := scriptedWorld [inr [rawTool "search"]] (inr VNull) in
  let H := exampleHost (exampleConfig false true false)
             (agentRaising (External "overloaded")) in
  Run.how (Run.cmdRun W H ["run"] emptyFiles) = Raises (External "overloaded")
  ∧ ∃ st, Run.manager (Run.cmdRun W H ["run"] emptyFiles) = Some st
          ∧ servers st = [].
Proof.
  split; [vm_compute; reflexivity|].
  eexists. split; [vm_compute; reflexivity|].
  refine (proj1
    (cmdRun_disconnects_in_the_end
       (scriptedWorld [inr [rawTool "search"]] (inr VNull))
       (exampleHost (exampleConfig false true false)
          (agentRaising (External "overloaded")))
       ["run"] emptyFiles _ _ _ _)); [done|vm_compute; reflexivity|].
  intros code. vm_compute. discriminate.
Defined.

(** X22: with [--dry] the run does not depend on the agent, the prompts,
    the clock or [path.join], and it leaves the file system as it was: the
    directory of the reports is not even created. *)
Theorem cmdRun_dry_run_skips_the_agent W H H' args fs :
  "--dry" ∈ args →
  Run.configExists H' = Run.configExists H →
  Run.loadConfig H' = Run.loadConfig H →
  Run.configPath H' = Run.configPath H →
  Run.cmdRun W H' args fs = Run.cmdRun W H args fs
  ∧ Run.files (Run.cmdRun W H args fs) = fs.
Proof.
  intros Hdry Hc Hl Hp. unfold Run.cmdRun. rewrite Hc, Hl, Hp.
  destruct (Run.configExists H); cbn [negb]; [|done].
  destruct (Run.loadConfig H) as [e|[config report]]; [done|].
  destruct (getEnabledServers _ _) as [e|entries]; [done|].
  case_bool_decide; [done|].
  rewrite (bool_decide_eq_true_2 _ Hdry).
  rewrite RunFacts.finallyDisconnect_files.
  unfold Run.tryBlock.
  destruct (connect W entries _) as [[e|[]] st1]; [done|].
  unfold getAllTools. unfold mbind, M_bind, get, mret, M_ret.
  by case_bool_decide.
Qed.

Lemma cmdRun_dry_run_skips_the_agent_witness :
  let W := scriptedWorld [inr [rawTool "search"]] (inr VNull) in
  let config := exampleConfig false true false in
  Run.cmdRun W (exampleHost config (agentRaising (External "overloaded")))
    ["run"; "--dry"] emptyFiles
  = Run.cmdRun W (exampleHost config (agentReturning "ok"))
      ["run"; "--dry"] emptyFiles
  ∧ Run.how (Run.cmdRun W (exampleHost config (agentReturning "ok"))
               ["run"; "--dry"] emptyFiles) = Returns.
Proof.
  split; [|vm_compute; reflexivity].
  refine (proj1
    (cmdRun_dry_run_skips_the_agent
       (scriptedWorld [inr [rawTool "search"]] (inr VNull))
       (exampleHost (exampleConfig false true false) (agentReturning "ok"))
       (exampleHost (exampleConfig false true false)
          (agentRaising (External "overloaded")))
       ["run"; "--dry"] emptyFiles _ _ _ _)); try reflexivity.
  apply list_elem_of_In. simpl. tauto.
Defined.

(** X23: with [--no-save] no file is written: at the end the file system
    is the one the run started with, or that one with the directory of the
    reports created. *)
Theorem cmdRun_no_save_writes_no_file W H args fs :
  "--no-save" ∈ args →
  Run.files (Run.cmdRun W H args fs) = fs
  ∨ ∃ config report home,
      Run.loadConfig H = inr (config, report)
      ∧ Run.home H = inr home
      ∧ Run.files (Run.cmdRun W H args fs)
        = Memory.ensureDir (Memory.reportDir home report) fs.
Proof.
  intros Hflag. unfold Run.cmdRun.
  destruct (Run.configExists H); cbn [negb]; [|by left].
  destruct (Run.loadConfig H) as [e|[config report]]; [by left|].
  destruct (getEnabledServers _ _) as [e|entries]; [by left|].
  case_bool_decide; [by left|].
  rewrite RunFacts.finallyDisconnect_files.
  rewrite (bool_decide_eq_true_2 _ Hflag).
  destruct (RunFacts.tryBlock_files W H report (bool_decide ("--dry" ∈ args))
              true entries (newManager (github_orgs (github config)) []) fs)
    as [Hf|(home & Hhome & Hf)]; [by right|by left|].
  right. by exists config, report, home.
Qed.

Lemma cmdRun_no_save_writes_no_file_witness :
  let W := scriptedWorld [inr [rawTool "search"]] (inr VNull) in
  let H := exampleHost (exampleConfig false true false) (agentReturning "ok") in
  Run.printed (Run.cmdRun W H ["run"; "--no-save"] emptyFiles)
  = [Run.OutLine "ok"]
  ∧ (Run.files (Run.cmdRun W H ["run"; "--no-save"] emptyFiles) = emptyFiles
     ∨ ∃ config report home,
         Run.loadConfig H = inr (config, report)
         ∧ Run.home H = inr home
         ∧ Run.files (Run.cmdRun W H ["run"; "--no-save"] emptyFiles)
           = Memory.ensureDir (Memory.reportDir home report) emptyFiles).
Proof.
  split; [vm_compute; reflexivity|].
  apply (cmdRun_no_save_writes_no_file
           (scriptedWorld [inr [rawTool "search"]] (inr VNull))
           (exampleHost (exampleConfig false true false) (agentReturning "ok"))
           ["run"; "--no-save"] emptyFiles).
  apply list_elem_of_In. simpl. tauto.
Defined.
